(** * Risk/reward evaluation of trading orders (热力图.py)

    A shallow embedding of the price-offset resolver [calc_price_from_input],
    the per-order evaluator [analyze_order] and the driver
    [analyze_trading_orders], followed by the properties of the written
    specification that concern them.

    Numbers.  Python's [float] is IEEE 754 binary64, and so is Rocq's primitive
    [float]: [+], [-], [*], [abs] and the comparisons are the same operations,
    bit for bit.  The one difference is Python's true division, which raises
    [ZeroDivisionError] on a zero divisor where IEEE returns an infinity or a
    NaN; [Py.truediv] models that.  The integer literals of the script
    (4420, 20, 95, ...) are modelled by the floats of the same value: for
    integers of magnitude below 2^53 Python's mixed arithmetic and comparisons
    agree with the float operations on the converted operand.

    Strings.  A Python [str] is modelled by its UTF-8 bytes ([string]).  The
    percent sign is ASCII and the long label is compared as a whole, so the
    byte-level operations agree with the code-point-level ones.  [float()]
    works on code points: it reads the decimal digits and the white space of
    every script, so the model decodes the bytes first ([Py.code_points]) and
    follows the character tables of Unicode 14.0, the version CPython 3.11
    carries.

    Effects.  The driver's printing, [display] and [plot_heatmap] are recorded
    as a list of effects; the display and plotting routines are taken to
    return normally. *)

From Stdlib Require Import Floats ZArith List String Ascii Bool Lia.
From Stdlib Require Import DecimalString.
Import ListNotations.

Set Warnings "-inexact-float".

(* ================================================================== *)
(** ** The fragment of the Python runtime the script relies on *)

Module Py.

Local Open Scope float_scope.

(** The two exceptions the modelled code can raise. *)
Inductive exn : Type :=
| ZeroDivisionError
| ValueError.

(** A call either returns a value or raises. *)
Inductive outcome (A : Type) : Type :=
| Return (a : A)
| Raise (e : exn).

Arguments Return {A} a.
Arguments Raise {A} e.

Definition bind {A B : Type} (m : outcome A) (k : A -> outcome B) : outcome B :=
  match m with
  | Return a => k a
  | Raise e => Raise e
  end.

(** [a / b]: raises on a zero divisor of either sign, whatever [a] is. *)
Definition truediv (a b : float) : outcome float :=
  if b =? 0 then Raise ZeroDivisionError else Return (a / b).

(** [a >= b] and [a <= b]; both are [False] when an operand is a NaN. *)
Definition ge (a b : float) : bool := b <=? a.
Definition le (a b : float) : bool := a <=? b.

(** *** Strings as character lists *)

Definition endswith (s : list ascii) (c : ascii) : bool :=
  match rev s with
  | x :: _ => Ascii.eqb x c
  | [] => false
  end.

Fixpoint lstrip (p : ascii -> bool) (s : list ascii) : list ascii :=
  match s with
  | c :: s' => if p c then lstrip p s' else s
  | [] => []
  end.

Definition rstrip (p : ascii -> bool) (s : list ascii) : list ascii :=
  rev (lstrip p (rev s)).

(** [s.strip(chars)]: drops every leading and trailing character of the set. *)
Definition strip (p : ascii -> bool) (s : list ascii) : list ascii :=
  rstrip p (lstrip p s).

(** *** Code points

    A [str] is a sequence of code points; the model holds their UTF-8
    encoding.  [decode] reads it back, one byte at a time: [pending] is the
    number of continuation bytes the current character still needs, [acc] the
    bits read of it so far, [lo] the least code point its length may encode.
    [None]: the bytes are not the encoding of any text. *)

Fixpoint decode (pending : nat) (acc lo : N) (bs : list ascii)
  : option (list N) :=
  match bs with
  | [] =>
      match pending with
      | O => Some []
      | S _ => None
      end
  | b :: rest =>
      let n := N_of_ascii b in
      match pending with
      | O =>
          if (n <? 0x80)%N then option_map (cons n) (decode 0 0 0 rest)
          else if (n <? 0xC0)%N then None
          else if (n <? 0xE0)%N then decode 1 (n - 0xC0) 0x80 rest
          else if (n <? 0xF0)%N then decode 2 (n - 0xE0) 0x800 rest
          else if (n <? 0xF8)%N then decode 3 (n - 0xF0) 0x10000 rest
          else None
      | S k =>
          if ((0x80 <=? n) && (n <? 0xC0))%N then
            let acc' := (acc * 64 + (n - 0x80))%N in
            match k with
            | O =>
                if ((lo <=? acc') && (acc' <=? 0x10FFFF))%N
                then option_map (cons acc') (decode 0 0 0 rest)
                else None
            | S _ => decode k acc' lo rest
            end
          else None
      end
  end.

Definition code_points (bs : list ascii) : option (list N) := decode 0 0 0 bs.

(** The white space outside ASCII ([str.isspace]). *)
Definition unicode_space (c : N) : bool :=
  existsb (N.eqb c) [0x85; 0xA0; 0x1680; 0x2028; 0x2029; 0x202F; 0x205F; 0x3000]%N
  || ((0x2000 <=? c) && (c <=? 0x200A))%N.

(** The digits zero of the scripts outside ASCII; the digits one to nine of
    each script follow its zero. *)
Definition decimal_zeros : list N :=
  [ 0x660; 0x6F0; 0x7C0; 0x966; 0x9E6; 0xA66; 0xAE6; 0xB66; 0xBE6; 0xC66;
    0xCE6; 0xD66; 0xDE6; 0xE50; 0xED0; 0xF20; 0x1040; 0x1090; 0x17E0; 0x1810;
    0x1946; 0x19D0; 0x1A80; 0x1A90; 0x1B50; 0x1BB0; 0x1C40; 0x1C50; 0xA620;
    0xA8D0; 0xA900; 0xA9D0; 0xA9F0; 0xAA50; 0xABF0; 0xFF10; 0x104A0; 0x10D30;
    0x11066; 0x110F0; 0x11136; 0x111D0; 0x112F0; 0x11450; 0x114D0; 0x11650;
    0x116C0; 0x11730; 0x118E0; 0x11950; 0x11C50; 0x11D50; 0x11DA0; 0x16A60;
    0x16AC0; 0x16B50; 0x1D7CE; 0x1D7D8; 0x1D7E2; 0x1D7EC; 0x1D7F6; 0x1E140;
    0x1E2F0; 0x1E950; 0x1FBF0 ]%N.

(** The value of a decimal digit from outside ASCII ([unicodedata.decimal]). *)
Definition unicode_decimal (c : N) : option N :=
  match find (fun z => (z <=? c) && (c <? z + 10))%N decimal_zeros with
  | Some z => Some (c - z)%N
  | None => None
  end.

(** What [float()] makes of one character before it parses: an ASCII
    character other than DEL stays, white space becomes a space, a decimal
    digit the ASCII digit of its value; anything else has no place in a
    number. *)
Definition ascii_of_code_point (c : N) : option ascii :=
  if (c <? 127)%N then Some (ascii_of_N c)
  else if unicode_space c then Some " "%char
  else option_map (fun d => ascii_of_N (48 + d)) (unicode_decimal c).

Fixpoint transform_decimal_and_space (cps : list N) : option (list ascii) :=
  match cps with
  | [] => Some []
  | c :: rest =>
      match ascii_of_code_point c, transform_decimal_and_space rest with
      | Some a, Some r => Some (a :: r)
      | _, _ => None
      end
  end.

(** *** [float(str)]

    The literal grammar of the language reference:
<<
    floatvalue ::= [sign] (floatnumber | "inf" | "infinity" | "nan")
    floatnumber ::= number [exponent]
    number     ::= [digitpart] "." digitpart | digitpart ["."]
    exponent   ::= ("e" | "E") [sign] digitpart
    digitpart  ::= digit (["_"] digit)*
>>
    with surrounding white space ignored, the three words read without
    regard to case, and the value rounded to the nearest binary64 (ties to
    even).  The grammar is applied to the text [transform_decimal_and_space]
    gives, so [digit] and the white space are the ASCII ones below. *)

Definition is_space (c : ascii) : bool :=
  let n := nat_of_ascii c in
  ((9 <=? n) && (n <=? 13) || (n =? 32))%nat.

Definition digit_val (c : ascii) : option Z :=
  let n := nat_of_ascii c in
  if ((48 <=? n) && (n <=? 57))%nat then Some (Z.of_nat (n - 48)) else None.

Definition lower (c : ascii) : ascii :=
  let n := nat_of_ascii c in
  if ((65 <=? n) && (n <=? 90))%nat then ascii_of_nat (n + 32) else c.

(** States of the scanner of [floatnumber]: [m] is the integer spelled by
    the digits read so far, [k] how many of them follow the point, [e] the
    digits of the exponent. *)
Inductive scan : Type :=
| SStart
| SInt (m : Z)
| SIntUs (m : Z)
| SPoint (m : Z)
| SLeadPoint
| SFrac (m k : Z)
| SFracUs (m k : Z)
| SExp (m k : Z)
| SExpSign (m k : Z) (neg : bool)
| SExpDig (m k : Z) (neg : bool) (e : Z)
| SExpUs (m k : Z) (neg : bool) (e : Z).

Definition is_e (c : ascii) : bool := Ascii.eqb c "e" || Ascii.eqb c "E".

Definition scan_step (st : scan) (c : ascii) : option scan :=
  match digit_val c with
  | Some d =>
      match st with
      | SStart => Some (SInt d)
      | SInt m | SIntUs m => Some (SInt (10 * m + d))
      | SPoint m => Some (SFrac (10 * m + d) 1)
      | SLeadPoint => Some (SFrac d 1)
      | SFrac m k | SFracUs m k => Some (SFrac (10 * m + d) (k + 1))
      | SExp m k => Some (SExpDig m k false d)
      | SExpSign m k neg => Some (SExpDig m k neg d)
      | SExpDig m k neg e | SExpUs m k neg e => Some (SExpDig m k neg (10 * e + d))
      end
  | None =>
      if Ascii.eqb c "_" then
        match st with
        | SInt m => Some (SIntUs m)
        | SFrac m k => Some (SFracUs m k)
        | SExpDig m k neg e => Some (SExpUs m k neg e)
        | _ => None
        end
      else if Ascii.eqb c "." then
        match st with
        | SStart => Some SLeadPoint
        | SInt m => Some (SPoint m)
        | _ => None
        end
      else if is_e c then
        match st with
        | SInt m | SPoint m => Some (SExp m 0)
        | SFrac m k => Some (SExp m k)
        | _ => None
        end
      else if Ascii.eqb c "+" || Ascii.eqb c "-" then
        match st with
        | SExp m k => Some (SExpSign m k (Ascii.eqb c "-"))
        | _ => None
        end
      else None
  end.

Fixpoint scan_all (st : scan) (cs : list ascii) : option scan :=
  match cs with
  | [] => Some st
  | c :: cs' =>
      match scan_step st c with
      | Some st' => scan_all st' cs'
      | None => None
      end
  end.

(** The decimal [m * 10^e10] a final state denotes. *)
Definition scan_value (st : scan) : option (Z * Z) :=
  match st with
  | SInt m | SPoint m => Some (m, 0%Z)
  | SFrac m k => Some (m, (- k)%Z)
  | SExpDig m k neg e => Some (m, ((if neg then - e else e) - k)%Z)
  | _ => None
  end.

(** The binary64 nearest to [m * 10^e10], for [0 <= m]. *)
Definition float_of_decimal (m e10 : Z) : float :=
  match m with
  | Zpos p =>
      if (0 <=? e10)%Z
      then SF2Prim (binary_normalize prec emax (Zpos p * 10 ^ e10) 0 false)
      else SF2Prim (SFdiv prec emax (S754_finite false p 0)
                      (S754_finite false (Z.to_pos (10 ^ (- e10))) 0))
  | _ => 0
  end.

Definition float_of_unsigned (cs : list ascii) : option float :=
  let w := string_of_list_ascii (map lower cs) in
  if ((w =? "inf") || (w =? "infinity"))%string then Some infinity
  else if (w =? "nan")%string then Some nan
  else
    match scan_all SStart cs with
    | Some st =>
        match scan_value st with
        | Some (m, e10) => Some (float_of_decimal m e10)
        | None => None
        end
    | None => None
    end.

(** The parse of the transformed text. *)
Definition float_of_ascii (s : list ascii) : outcome float :=
  let cs := strip is_space s in
  let '(neg, body) :=
    match cs with
    | c :: r =>
        if Ascii.eqb c "-" then (true, r)
        else if Ascii.eqb c "+" then (false, r)
        else (false, cs)
    | [] => (false, cs)
    end in
  match float_of_unsigned body with
  | Some f => Return (if neg then - f else f)
  | None => Raise ValueError
  end.

(** [float(s)] for the [str] whose UTF-8 bytes are [s]. *)
Definition float_of_chars (s : list ascii) : outcome float :=
  match code_points s with
  | Some cps =>
      match transform_decimal_and_space cps with
      | Some cs => float_of_ascii cs
      | None => Raise ValueError
      end
  | None => Raise ValueError
  end.

(** A price specification of the order table: a number or a string. *)
Inductive value : Type :=
| Num (f : float)
| Str (s : string).

(** [float(value)]. *)
Definition float_of (v : value) : outcome float :=
  match v with
  | Num f => Return f
  | Str s => float_of_chars (list_ascii_of_string s)
  end.

End Py.

Import Py.

Notation "x <- m ;; k" := (Py.bind m (fun x => k))
  (at level 61, m at next level, right associativity).

Local Open Scope float_scope.

(* ================================================================== *)
(** ** The offset resolver *)

Definition percent : ascii := "%"%char.

Definition is_percent (c : ascii) : bool := Ascii.eqb c percent.

(** [calc_price_from_input(current_price, value)]: a string that ends in a
    percent sign is an offset relative to [current_price]; anything else goes
    through [float()]. *)
Definition calc_price_from_input (current_price : float) (value : Py.value)
  : outcome float :=
  match value with
  | Str s =>
      let cs := list_ascii_of_string s in
      if endswith cs percent then
        pct <- float_of_chars (strip is_percent cs) ;;
        Return (current_price * (1 + pct / 100))
      else float_of value
  | Num _ => float_of value
  end.

(* ================================================================== *)
(** ** The order evaluator *)

(** The dictionary [analyze_order] reads. *)
Record order : Type := {
  direction : string;
  win_rate : float;
  current_price : float;
  take_profit : float;
  stop_loss : float
}.

(** The dictionary [analyze_order] returns; each field is named after the
    variable stored under the key given beside it. *)
Record analysis : Type := {
  r_direction : string;          (* 方向 *)
  r_current_price : float;       (* 开仓价 *)
  r_take_profit : float;         (* 止盈价 *)
  r_stop_loss : float;           (* 止损价 *)
  r_profit_loss_ratio : float;   (* 盈亏比 *)
  r_potential_profit : float;    (* 潜在盈利 *)
  r_potential_loss : float;      (* 潜在亏损 *)
  r_pct_profit : float;          (* 止盈幅度% *)
  r_pct_loss : float;            (* 止损幅度% *)
  r_capital : float;             (* 保证金 *)
  r_position_value : float;      (* 持仓规模 *)
  r_leverage : float;            (* 杠杆 *)
  r_win_rate : float;            (* 胜率 *)
  r_expected_val : float         (* 期望收益 *)
}.

(** The label of a long order. *)
Definition long_label : string := "多".

(** The label the script's example uses for a short order. *)
Definition short_label : string := "空".

Definition is_long (o : order) : bool := (direction o =? long_label)%string.

(** What a branch of [analyze_order] leaves in scope when it does not return:
    [potential_profit], [potential_loss], [pct_profit], [pct_loss]. *)
Definition branch_vars : Type := (float * float * float * float)%type.

Definition long_branch (o : order) (position_size : float)
  : outcome (option branch_vars) :=
  if ge (stop_loss o) (current_price o) || le (take_profit o) (current_price o)
  then Return None
  else
    let potential_profit := (take_profit o - current_price o) * position_size in
    let potential_loss := (current_price o - stop_loss o) * position_size in
    q_profit <- truediv (take_profit o - current_price o) (current_price o) ;;
    q_loss <- truediv (stop_loss o - current_price o) (current_price o) ;;
    Return (Some (potential_profit, potential_loss, q_profit * 100, q_loss * 100)).

Definition short_branch (o : order) (position_size : float)
  : outcome (option branch_vars) :=
  if le (stop_loss o) (current_price o) || ge (take_profit o) (current_price o)
  then Return None
  else
    let potential_profit := (current_price o - take_profit o) * position_size in
    let potential_loss := (stop_loss o - current_price o) * position_size in
    q_profit <- truediv (current_price o - take_profit o) (current_price o) ;;
    q_loss <- truediv (stop_loss o - current_price o) (current_price o) ;;
    Return (Some (potential_profit, potential_loss, q_profit * 100, q_loss * 100)).

(** [analyze_order(order, capital, leverage)]: [Return None] is Python's
    [return None], [Return (Some r)] the returned dictionary. *)
Definition analyze_order (o : order) (capital leverage : float)
  : outcome (option analysis) :=
  margin <- truediv capital leverage ;;
  let position_value := capital * leverage in
  position_size <- truediv position_value (current_price o) ;;
  vars <- (if is_long o then long_branch o position_size
           else short_branch o position_size) ;;
  match vars with
  | None => Return None
  | Some (potential_profit, potential_loss, pct_profit, pct_loss) =>
      if potential_loss =? 0 then Return None
      else
        ratio <- truediv potential_profit potential_loss ;;
        let profit_loss_ratio := abs ratio in
        let expected_val :=
          win_rate o * potential_profit - (1 - win_rate o) * potential_loss in
        Return (Some {|
          r_direction := direction o;
          r_current_price := current_price o;
          r_take_profit := take_profit o;
          r_stop_loss := stop_loss o;
          r_profit_loss_ratio := profit_loss_ratio;
          r_potential_profit := potential_profit;
          r_potential_loss := potential_loss;
          r_pct_profit := pct_profit;
          r_pct_loss := pct_loss;
          r_capital := capital;
          r_position_value := position_value;
          r_leverage := leverage;
          r_win_rate := win_rate o;
          r_expected_val := expected_val
        |})
  end.

(* ================================================================== *)
(** ** The driver *)

(** A row of [orders_input]: [[方向, 胜率, 当前价格, 止盈, 止损]]. *)
Record input_row : Type := {
  o0 : string;
  o1 : float;
  o2 : float;
  o3 : Py.value;
  o4 : Py.value
}.

(** What the driver does besides returning: what it prints, the display
    format it sets, and the table it hands to [display] and [plot_heatmap]
    (both taken to return normally). *)
Inductive effect : Type :=
| Print (line : string)
| SetFloatFormat
| Display (df : list analysis)
| PlotHeatmap (df : list analysis).

(** The first loop: [orders] accumulates the resolved orders. *)
Fixpoint resolve_loop (orders_input : list input_row) (orders : list order)
  : outcome (list order) :=
  match orders_input with
  | [] => Return orders
  | o :: rest =>
      tp <- calc_price_from_input (o2 o) (o3 o) ;;
      sl <- calc_price_from_input (o2 o) (o4 o) ;;
      resolve_loop rest
        (orders ++ [ {| direction := o0 o; win_rate := o1 o;
                        current_price := o2 o;
                        take_profit := tp; stop_loss := sl |} ])
  end.

(** The second loop: [results] accumulates the dictionaries returned. *)
Fixpoint analyze_loop (orders : list order) (capital leverage : float)
  (results : list analysis) : outcome (list analysis) :=
  match orders with
  | [] => Return results
  | o :: rest =>
      res <- analyze_order o capital leverage ;;
      analyze_loop rest capital leverage
        (match res with
         | Some r => results ++ [r]
         | None => results
         end)
  end.

Definition msg_results : string := "订单分析结果:".
Definition msg_no_valid_orders : string := "没有有效的订单数据".

(** [analyze_trading_orders(capital, leverage, orders_input)]: the data frame
    is the list of its rows. *)
Definition analyze_trading_orders (capital leverage : float)
  (orders_input : list input_row)
  : outcome (list effect * option (list analysis)) :=
  orders <- resolve_loop orders_input [] ;;
  results <- analyze_loop orders capital leverage [] ;;
  match results with
  | _ :: _ =>
      Return ([SetFloatFormat; Print msg_results; Display results;
               PlotHeatmap results], Some results)
  | [] => Return ([Print msg_no_valid_orders], None)
  end.

(* ================================================================== *)
(** ** The plotting routine

    [plot_heatmap] builds a plotly figure; the model keeps the figure's list
    of traces, in the order [add_trace] receives them, with the attributes
    that are computed.  Attributes that are the same literal for every trace of
    a kind (mode, sizes, colour scale, the layout) carry no data and are left
    out.  The data frame is the list of its rows and [iterrows] yields them
    with the indices 0, 1, ... of a frame built from a list.

    numpy's [linspace] and [clip] and Python's number formatting are not
    part of the script: they are parameters of the model.  Element-wise
    numpy arithmetic on float64 is the IEEE operation (a zero divisor gives an
    infinity or a NaN, it does not raise). *)

Inductive trace : Type :=
| Contour (z : list (list float)) (x y : list float)
| Lines (x y : list float) (name : string)
| Marker (x y : float) (text color name hovertext : string).

(** [f"{n}"] for a non-negative integer. *)
Definition string_of_nat (n : nat) : string :=
  NilEmpty.string_of_uint (Nat.to_uint n).

Definition breakeven_name : string := "盈亏平衡线".

Section PlotHeatmap.

(** [np.linspace(start, stop, num)]. *)
Variable linspace : float -> float -> nat -> list float.

(** [np.clip(x, lo, hi)] on one element. *)
Variable clip : float -> float -> float -> float.

(** [f"{x:.2f}"], [f"{x:.2%}"] and [f"{x}"]. *)
Variables format_2f format_2pct format_plain : float -> string.

(** The hover text of the marker of row [idx]. *)
Definition hover_text (idx : nat) (row : analysis) : string :=
  String.concat ""
    [ "订单 "; string_of_nat (idx + 1); "<br>";
      "方向: "; r_direction row; "<br>";
      "开仓价: "; format_2f (r_current_price row); "<br>";
      "止盈价: "; format_2f (r_take_profit row); "<br>";
      "止损价: "; format_2f (r_stop_loss row); "<br>";
      "胜率: "; format_2pct (r_win_rate row); "<br>";
      "盈亏比: "; format_2f (r_profit_loss_ratio row); "<br>";
      "期望收益: "; format_2f (r_expected_val row); "<br>";
      "潜在盈利: "; format_2f (r_potential_profit row); "<br>";
      "潜在亏损: "; format_2f (r_potential_loss row); "<br>";
      "止盈幅度: "; format_2f (r_pct_profit row); "%<br>";
      "止损幅度: "; format_2f (r_pct_loss row); "%<br>";
      "保证金: "; format_2f (r_capital row); "<br>";
      "持仓规模: "; format_2f (r_position_value row); "<br>";
      "杠杆: "; format_plain (r_leverage row); "x" ]%string.

(** The body of the loop over the rows: the marker added for row [idx]. *)
Definition marker_of (idx : nat) (row : analysis) : trace :=
  let color :=
    (if r_direction row =? long_label then "green" else "red")%string in
  Marker (r_win_rate row * 100) (r_profit_loss_ratio row)
    (string_of_nat (idx + 1)) color
    (r_direction row ++ " " ++ string_of_nat (idx + 1))%string
    (hover_text idx row).

(** The loop over [orders_data.iterrows()]: [fig] is the list of traces
    added so far. *)
Fixpoint add_markers (rows : list analysis) (idx : nat) (fig : list trace)
  : list trace :=
  match rows with
  | [] => fig
  | row :: rest => add_markers rest (S idx) (fig ++ [marker_of idx row])
  end.

(** [plot_heatmap(orders_data)]: the traces of the figure it shows. *)
Definition plot_heatmap (orders_data : list analysis) : list trace :=
  let win_rates := linspace 0.01 0.99 100 in
  let profit_loss_ratios := linspace 0.01 5 100 in
  (* X, Y = np.meshgrid(win_rates, profit_loss_ratios); Z = X * Y - (1 - X) *)
  let Z :=
    map (fun y => map (fun x => x * y - (1 - x)) win_rates)
      profit_loss_ratios in
  let fig := [Contour Z (map (fun x => x * 100) win_rates) profit_loss_ratios] in
  let breakeven_x := linspace 1 99 100 in
  let breakeven_y :=
    map (fun x => (1 - x / 100) / (x / 100)) breakeven_x in
  let breakeven_y := map (fun y => clip y 0 5) breakeven_y in
  let fig := fig ++ [Lines breakeven_x breakeven_y breakeven_name] in
  add_markers orders_data 0 fig.

End PlotHeatmap.

(** The marker of a trace, when it is one: position, label and colour. *)
Definition marker_view (t : trace)
  : option (float * float * string * string) :=
  match t with
  | Marker x y text color _ _ => Some (x, y, text, color)
  | _ => None
  end.

(* ================================================================== *)
(** ** Vocabulary of the statements

    First the predicates that follow the words of the written specification,
    then names for the parts of [analyze_order] the statements talk about;
    the theorems compare the former with what the code computes. *)

(** [x] is within [tol] of the reference value [v]. *)
Definition within (tol x v : float) : bool := abs (x - v) <=? tol.

(** The directional ordering invariant on an order. *)
Definition ordering_invariant (o : order) : bool :=
  if is_long o
  then (stop_loss o <? current_price o) && (current_price o <? take_profit o)
  else (take_profit o <? current_price o) && (current_price o <? stop_loss o).

(** The same invariant read off an emitted result. *)
Definition result_invariant (r : analysis) : bool :=
  if (r_direction r =? long_label)%string
  then (r_stop_loss r <? r_current_price r) && (r_current_price r <? r_take_profit r)
  else (r_take_profit r <? r_current_price r) && (r_current_price r <? r_stop_loss r).

(** The price distance to the stop, on the side the direction makes a loss. *)
Definition loss_distance (o : order) : float :=
  if is_long o then current_price o - stop_loss o
  else stop_loss o - current_price o.

(** The loss the evaluator computes: distance times position size. *)
Definition potential_loss (o : order) (capital leverage : float) : float :=
  loss_distance o * (capital * leverage / current_price o).

(** No operand of the validation's comparisons is a NaN. *)
Definition prices_comparable (o : order) : bool :=
  negb (is_nan (current_price o) || is_nan (take_profit o) || is_nan (stop_loss o)).

(** An order with another label. *)
Definition with_direction (d : string) (o : order) : order :=
  {| direction := d; win_rate := win_rate o; current_price := current_price o;
     take_profit := take_profit o; stop_loss := stop_loss o |}.


Definition map_outcome {A B : Type} (f : A -> B) (m : outcome A) : outcome B :=
  match m with
  | Return a => Return (f a)
  | Raise e => Raise e
  end.

(** A row resolves to an order when both of its price specifications do. *)
Definition resolves_to (row : input_row) (o : order) : Prop :=
  exists tp sl,
    calc_price_from_input (o2 row) (o3 row) = Return tp /\
    calc_price_from_input (o2 row) (o4 row) = Return sl /\
    o = {| direction := o0 row; win_rate := o1 row; current_price := o2 row;
           take_profit := tp; stop_loss := sl |}.

(** The results an order contributes to the table: one, or none. *)
Definition emitted (capital leverage : float) (o : order) : list analysis :=
  match analyze_order o capital leverage with
  | Return (Some r) => [r]
  | _ => []
  end.

(** The table of the valid orders, in the order of the input. *)
Definition valid_results (capital leverage : float) (orders : list order)
  : list analysis :=
  flat_map (emitted capital leverage) orders.

(** An order that is evaluated without raising. *)
Definition evaluates (capital leverage : float) (o : order) : Prop :=
  exists res, analyze_order o capital leverage = Return res.

(** The characters of a Python string. *)
Definition chars (s : string) : list ascii := list_ascii_of_string s.

(** The specification's reading of a percentage string: the text before the
    final percent sign. *)
Definition percent_prefix (s : string) : option (list ascii) :=
  match rev (chars s) with
  | c :: r => if is_percent c then Some (rev r) else None
  | [] => None
  end.

(** The value is a string that ends in a percent sign. *)
Definition ends_in_percent (v : Py.value) : bool :=
  match v with
  | Str s => endswith (chars s) percent
  | Num _ => false
  end.

(** [float()] rejects the text. *)
Definition unparsable (cs : list ascii) : bool :=
  match float_of_chars cs with
  | Return _ => false
  | Raise _ => true
  end.

(** A string that ends in a percent sign, with nothing numeric left once its
    leading and trailing percent signs are stripped. *)
Definition malformed_percentage (v : Py.value) : bool :=
  match v with
  | Str s =>
      endswith (chars s) percent && unparsable (strip is_percent (chars s))
  | Num _ => false
  end.

(** The guard of the branch [analyze_order] takes for [o]. *)
Definition rejected (o : order) : bool :=
  if is_long o
  then ge (stop_loss o) (current_price o) || le (take_profit o) (current_price o)
  else le (stop_loss o) (current_price o) || ge (take_profit o) (current_price o).

(** The price distance to the target, on the side the direction makes a gain. *)
Definition profit_distance (o : order) : float :=
  if is_long o then take_profit o - current_price o
  else current_price o - take_profit o.

Definition position_size (o : order) (capital leverage : float) : float :=
  capital * leverage / current_price o.

Definition potential_profit (o : order) (capital leverage : float) : float :=
  profit_distance o * position_size o capital leverage.

(** The dictionary built on the last line of [analyze_order]. *)
Definition result_of (o : order) (capital leverage : float) : analysis :=
  let pp := potential_profit o capital leverage in
  let pl := potential_loss o capital leverage in
  {| r_direction := direction o;
     r_current_price := current_price o;
     r_take_profit := take_profit o;
     r_stop_loss := stop_loss o;
     r_profit_loss_ratio := abs (pp / pl);
     r_potential_profit := pp;
     r_potential_loss := pl;
     r_pct_profit := profit_distance o / current_price o * 100;
     r_pct_loss := (stop_loss o - current_price o) / current_price o * 100;
     r_capital := capital;
     r_position_value := capital * leverage;
     r_leverage := leverage;
     r_win_rate := win_rate o;
     r_expected_val := win_rate o * pp - (1 - win_rate o) * pl |}.

(** *** The orders the specification and the script use as examples *)

(** Section 8 of the specification: a long order at 4420 with the target at
    4552.6 and the stop at 4034.454, evaluated with capital 100, leverage 20. *)
Definition example_long : order :=
  {| direction := long_label; win_rate := 0.6; current_price := 4420;
     take_profit := 4552.6; stop_loss := 4034.454 |}.

(** The short order of the script's own example block. *)
Definition example_short : order :=
  {| direction := short_label; win_rate := 0.5; current_price := 4420;
     take_profit := 4000; stop_loss := 5000 |}.

(** A long order whose target and stop are NaN, as [float("nan")] gives. *)
Definition nan_order : order :=
  {| direction := long_label; win_rate := 0.5; current_price := 100;
     take_profit := nan; stop_loss := nan |}.

(** A long order that violates the ordering: the stop is above the entry. *)
Definition inverted_long : order :=
  {| direction := long_label; win_rate := 0.5; current_price := 100;
     take_profit := 110; stop_loss := 120 |}.

(** A well-ordered long order. *)
Definition plain_long : order :=
  {| direction := long_label; win_rate := 0.5; current_price := 100;
     take_profit := 110; stop_loss := 90 |}.

(** The same with an entry price of zero. *)
Definition zero_entry_long : order :=
  {| direction := long_label; win_rate := 0.5; current_price := 0;
     take_profit := 110; stop_loss := -5 |}.

(** The same with the stop at minus infinity. *)
Definition unbounded_stop_long : order :=
  {| direction := long_label; win_rate := 0.5; current_price := 100;
     take_profit := 110; stop_loss := neg_infinity |}.

(** *** Rows of the order table used as examples *)

Definition row_long_3pct : input_row :=
  {| o0 := long_label; o1 := 0.6; o2 := 4420; o3 := Str "3%"; o4 := Str "-8.7%" |}.

Definition row_short : input_row :=
  {| o0 := short_label; o1 := 0.5; o2 := 4420; o3 := Num 4000; o4 := Num 5000 |}.

(** A long row whose stop is above the entry: it fails validation. *)
Definition row_inverted : input_row :=
  {| o0 := long_label; o1 := 0.5; o2 := 100; o3 := Num 110; o4 := Str "20%" |}.

(** A row whose target is no number at all. *)
Definition row_malformed : input_row :=
  {| o0 := long_label; o1 := 0.5; o2 := 100; o3 := Str "abc%"; o4 := Num 90 |}.

(** *** Vocabulary of the further properties *)

(** The sign bit of a binary64 number is clear, or the number is a NaN. *)
Definition sf_sign_clear (x : spec_float) : bool :=
  match x with
  | S754_nan => true
  | S754_zero s | S754_infinity s | S754_finite s _ _ => negb s
  end.

(** The resolver rejects one of the two price specifications of the row. *)
Definition unresolvable_row (row : input_row) : bool :=
  match calc_price_from_input (o2 row) (o3 row),
        calc_price_from_input (o2 row) (o4 row) with
  | Return _, Return _ => false
  | _, _ => true
  end.

(** The order the first loop of the driver builds from a row. *)
Definition order_of_row (row : input_row) : list order :=
  match calc_price_from_input (o2 row) (o3 row),
        calc_price_from_input (o2 row) (o4 row) with
  | Return tp, Return sl =>
      [ {| direction := o0 row; win_rate := o1 row; current_price := o2 row;
           take_profit := tp; stop_loss := sl |} ]
  | _, _ => []
  end.

Definition orders_of (rows : list input_row) : list order :=
  flat_map order_of_row rows.

(** The entry price of the row is zero. *)
Definition zero_entry (row : input_row) : bool := o2 row =? 0.

Definition is_empty {A : Type} (l : list A) : bool :=
  match l with
  | [] => true
  | _ :: _ => false
  end.

(** One of the evaluator's two leading divisions has a zero divisor for some
    row of the table. *)
Definition divides_by_zero (leverage : float) (rows : list input_row) : bool :=
  ((leverage =? 0) && negb (is_empty rows)) || existsb zero_entry rows.

(** [l1] is [l2] with some elements left out, the order kept. *)
Inductive subseq {A : Type} : list A -> list A -> Prop :=
| subseq_nil : subseq [] []
| subseq_skip (x : A) (l1 l2 : list A) : subseq l1 l2 -> subseq l1 (x :: l2)
| subseq_keep (x : A) (l1 l2 : list A) : subseq l1 l2 -> subseq (x :: l1) (x :: l2).

(** What identifies the row a result comes from: direction, win rate and
    entry price. *)
Definition row_key (row : input_row) : string * float * float :=
  (o0 row, o1 row, o2 row).

Definition result_key (r : analysis) : string * float * float :=
  (r_direction r, r_win_rate r, r_current_price r).


(** An order with another win rate. *)
Definition with_win_rate (w : float) (o : order) : order :=
  {| direction := direction o; win_rate := w; current_price := current_price o;
     take_profit := take_profit o; stop_loss := stop_loss o |}.

(** A result weighed with another win rate: the win rate and the expected
    value change, nothing else. *)
Definition reweigh (w : float) (r : analysis) : analysis :=
  {| r_direction := r_direction r;
     r_current_price := r_current_price r;
     r_take_profit := r_take_profit r;
     r_stop_loss := r_stop_loss r;
     r_profit_loss_ratio := r_profit_loss_ratio r;
     r_potential_profit := r_potential_profit r;
     r_potential_loss := r_potential_loss r;
     r_pct_profit := r_pct_profit r;
     r_pct_loss := r_pct_loss r;
     r_capital := r_capital r;
     r_position_value := r_position_value r;
     r_leverage := r_leverage r;
     r_win_rate := w;
     r_expected_val :=
       w * r_potential_profit r - (1 - w) * r_potential_loss r |}.

(** The rows of what the driver returns: those of the table, none for
    [None]. *)
Definition table_rows (out : list effect * option (list analysis))
  : list analysis :=
  match snd out with
  | Some df => df
  | None => []
  end.

(** The string is made of percent signs only; the empty string is. *)
Definition only_percent_signs (s : string) : bool :=
  forallb is_percent (chars s).

(** Closed goals about the examples are settled by running the model. *)
Ltac by_evaluation := vm_compute; reflexivity.

(* ================================================================== *)
(** ** Facts about binary64 *)

Section FloatFacts.

Lemma SFcompare_swap (x y : spec_float) :
  SFcompare y x = option_map CompOpp (SFcompare x y).
Proof.
  destruct x as [sx|sx| |sx mx ex], y as [sy|sy| |sy my ey]; simpl;
    try reflexivity;
    try (destruct sx; reflexivity); try (destruct sy; reflexivity);
    try (destruct sx, sy; reflexivity).
  destruct sx, sy; try reflexivity;
    rewrite (Z.compare_antisym ex ey);
    destruct (ex ?= ey)%Z; simpl; try reflexivity;
    rewrite (Pos.compare_cont_antisym mx my Eq); reflexivity.
Qed.

Lemma is_nan_spec (x : float) :
  is_nan x = match Prim2SF x with S754_nan => true | _ => false end.
Proof.
  unfold is_nan. rewrite FloatAxioms.eqb_spec. unfold SFeqb.
  destruct (Prim2SF x) as [s|s| |s m e]; simpl; try reflexivity.
  - destruct s; reflexivity.
  - destruct s; rewrite Z.compare_refl, Pos.compare_cont_refl; reflexivity.
Qed.

(** Away from NaN, [<=] is the negation of the converse [<]. *)
Lemma leb_ltb_dual (a b : float) :
  is_nan a = false -> is_nan b = false -> (a <=? b) = negb (b <? a).
Proof.
  rewrite !is_nan_spec, FloatAxioms.leb_spec, FloatAxioms.ltb_spec.
  unfold SFleb, SFltb.
  rewrite (SFcompare_swap (Prim2SF a) (Prim2SF b)).
  destruct (Prim2SF a) as [sa|sa| |sa ma ea], (Prim2SF b) as [sb|sb| |sb mb eb];
    intros Ha Hb; try discriminate;
    match goal with
    | |- context [SFcompare ?x ?y] => destruct (SFcompare x y) as [[]|] eqn:E
    end;
    try reflexivity; simpl in E;
    repeat match type of E with
           | context [if ?s then _ else _] => destruct s
           end; discriminate.
Qed.

(** Equal operands are ordered both ways. *)
Lemma eqb_leb_swap (a b : float) : (a =? b) = true -> (b <=? a) = true.
Proof.
  rewrite FloatAxioms.eqb_spec, FloatAxioms.leb_spec. unfold SFeqb, SFleb.
  rewrite (SFcompare_swap (Prim2SF a) (Prim2SF b)).
  destruct (SFcompare (Prim2SF a) (Prim2SF b)) as [[]|]; simpl;
    intros H; try discriminate; reflexivity.
Qed.

Lemma eqb_zero_iff (x : float) :
  (x =? 0) = true <-> exists s, Prim2SF x = S754_zero s.
Proof.
  rewrite FloatAxioms.eqb_spec. unfold SFeqb.
  change (Prim2SF 0) with (S754_zero false).
  destruct (Prim2SF x) as [s|s| |s m e]; simpl; split; intros H;
    try discriminate; eauto;
    try (destruct s; discriminate);
    try (destruct H as [s' H]; discriminate).
Qed.

Lemma is_finite_spec (x : float) :
  is_finite x = match Prim2SF x with
                | S754_zero _ | S754_finite _ _ _ => true
                | _ => false
                end.
Proof.
  unfold is_finite, is_infinity.
  rewrite is_nan_spec, FloatAxioms.eqb_spec, FloatAxioms.abs_spec.
  change (Prim2SF infinity) with (S754_infinity false). unfold SFeqb.
  destruct (Prim2SF x) as [s|s| |s m e]; reflexivity.
Qed.

(** A zero times a finite number is a zero. *)
Lemma mul_zero_l (c l : float) :
  (c =? 0) = true -> is_finite l = true -> (c * l =? 0) = true.
Proof.
  rewrite is_finite_spec, !eqb_zero_iff, mul_spec. unfold SF64mul.
  intros [s ->].
  destruct (Prim2SF l) as [sl|sl| |sl ml el]; intros F; try discriminate;
    simpl; eauto.
Qed.

Lemma mul_zero_r (d z : float) :
  is_finite d = true -> (z =? 0) = true -> (d * z =? 0) = true.
Proof.
  rewrite is_finite_spec, !eqb_zero_iff, mul_spec. unfold SF64mul.
  intros F [s ->].
  destruct (Prim2SF d) as [sd|sd| |sd md ed]; try discriminate; simpl; eauto.
Qed.

(** A zero divided by anything but a zero or a NaN is a zero. *)
Lemma div_zero_l (a b : float) :
  (a =? 0) = true -> is_nan b = false -> (b =? 0) = false ->
  (a / b =? 0) = true.
Proof.
  rewrite is_nan_spec. intros Ha Hn Hb.
  apply eqb_zero_iff in Ha. destruct Ha as [s Ha].
  apply eqb_zero_iff. rewrite div_spec, Ha. unfold SF64div.
  destruct (Prim2SF b) as [sb|sb| |sb mb eb] eqn:E; try discriminate;
    simpl; eauto.
  exfalso. assert (Z : (b =? 0) = true) by (apply eqb_zero_iff; eauto).
  congruence.
Qed.

(** A finite difference has no NaN operand. *)
Lemma sub_finite_not_nan (a b : float) :
  is_finite (a - b) = true -> is_nan a = false /\ is_nan b = false.
Proof.
  rewrite is_finite_spec, !is_nan_spec, sub_spec. unfold SF64sub.
  destruct (Prim2SF a) as [sa|sa| |sa ma ea], (Prim2SF b) as [sb|sb| |sb mb eb];
    simpl; intros H; try discriminate; auto.
Qed.

End FloatFacts.

(* ================================================================== *)
(** ** The evaluator, case by case *)

Section Evaluator.

Variables (o : order) (capital leverage : float).

(** The first statement divides by [leverage]. *)
Lemma analyze_order_zero_leverage :
  (leverage =? 0) = true ->
  analyze_order o capital leverage = Raise ZeroDivisionError.
Proof.
  intros H. unfold analyze_order, truediv. rewrite H. reflexivity.
Qed.

(** The third statement divides by the entry price. *)
Lemma analyze_order_zero_price :
  (leverage =? 0) = false -> (current_price o =? 0) = true ->
  analyze_order o capital leverage = Raise ZeroDivisionError.
Proof.
  intros Hl Hp. unfold analyze_order, truediv. rewrite Hl, Hp. reflexivity.
Qed.

(** Past the two divisions the evaluator always returns. *)
Lemma analyze_order_runs :
  (leverage =? 0) = false -> (current_price o =? 0) = false ->
  analyze_order o capital leverage =
    if rejected o then Return None
    else if potential_loss o capital leverage =? 0 then Return None
    else Return (Some (result_of o capital leverage)).
Proof.
  intros Hl Hp.
  unfold analyze_order, rejected, result_of, potential_profit, potential_loss,
    position_size, profit_distance, loss_distance, long_branch, short_branch,
    truediv.
  rewrite Hl, Hp. cbn [bind].
  destruct (is_long o);
    match goal with
    | |- context [if (?g || ?h)%bool then Return None else _] =>
        destruct (g || h)%bool
    end; cbn [bind]; try reflexivity;
    rewrite ?Hp; cbn [bind];
    match goal with
    | |- context [if ?z =? 0 then Return None else _] =>
        destruct (z =? 0) eqn:E
    end; try reflexivity; rewrite ?E; reflexivity.
Qed.

(** The three outcomes, and when each occurs. *)
Lemma analyze_order_cases :
  analyze_order o capital leverage =
    if (leverage =? 0) || (current_price o =? 0) then Raise ZeroDivisionError
    else if rejected o || (potential_loss o capital leverage =? 0) then Return None
    else Return (Some (result_of o capital leverage)).
Proof.
  destruct (leverage =? 0) eqn:Hl; [now apply analyze_order_zero_leverage|].
  destruct (current_price o =? 0) eqn:Hp; [now apply analyze_order_zero_price|].
  rewrite analyze_order_runs by assumption.
  destruct (rejected o); reflexivity.
Qed.

(** What an emitted result tells about the call. *)
Lemma analyze_order_emits (r : analysis) :
  analyze_order o capital leverage = Return (Some r) ->
  (leverage =? 0) = false /\ (current_price o =? 0) = false /\
  rejected o = false /\ (potential_loss o capital leverage =? 0) = false /\
  r = result_of o capital leverage.
Proof.
  rewrite analyze_order_cases.
  destruct (leverage =? 0), (current_price o =? 0), (rejected o),
    (potential_loss o capital leverage =? 0); cbn; intros H;
    try discriminate.
  injection H as <-. auto.
Qed.

End Evaluator.

(* ================================================================== *)
(** ** The evaluator against the specification *)

Section EvaluatorSpec.

Local Ltac emitted_as H :=
  apply analyze_order_emits in H;
  destruct H as (Hlev & Hprice & Hrej & Hloss & ->).

(** C1, general part as stated; the figures of the example as the code
    computes them.  For every long order the evaluator accepts, the result
    holds [position_value = capital * leverage], with
    [position_size = position_value / entry_price] the potential profit
    [(take_profit - entry_price) * position_size] and the potential loss
    [(entry_price - stop_loss) * position_size], the ratio
    [abs (potential_profit / potential_loss)] and the expected value
    [win_rate * potential_profit - (1 - win_rate) * potential_loss].  For the
    long order at 4420 with target 4552.6, stop 4034.454, win rate 0.6,
    capital 100 and leverage 20 the result has a position value of exactly
    2000, a potential profit of 60.00, a potential loss of 174.5, a ratio of
    0.344 and an expected value of -33.8, each to within half a unit of its
    last digit. *)
Theorem long_order_result_fields :
  (forall (o : order) (capital leverage : float) (r : analysis),
      is_long o = true ->
      analyze_order o capital leverage = Return (Some r) ->
      r_position_value r = capital * leverage /\
      r_potential_profit r =
        (take_profit o - current_price o)
        * (r_position_value r / current_price o) /\
      r_potential_loss r =
        (current_price o - stop_loss o)
        * (r_position_value r / current_price o) /\
      r_profit_loss_ratio r = abs (r_potential_profit r / r_potential_loss r) /\
      r_expected_val r =
        win_rate o * r_potential_profit r
        - (1 - win_rate o) * r_potential_loss r)
  /\
  (exists r : analysis,
      analyze_order example_long 100 20 = Return (Some r) /\
      r_position_value r = 2000 /\
      within 0.005 (r_potential_profit r) 60 = true /\
      within 0.05 (r_potential_loss r) 174.5 = true /\
      within 0.0005 (r_profit_loss_ratio r) 0.344 = true /\
      within 0.05 (r_expected_val r) (-33.8) = true).
Proof.
  split.
  - intros o capital leverage r Hlong H. emitted_as H.
    unfold result_of, potential_profit, potential_loss, position_size,
      profit_distance, loss_distance.
    rewrite Hlong. cbn. repeat split; reflexivity.
  - exists (result_of example_long 100 20).
    repeat split; by_evaluation.
Qed.

(** The general part of [long_order_result_fields] at the example order. *)
Lemma long_order_result_fields_witness :
  is_long example_long = true /\
  r_potential_profit (result_of example_long 100 20) =
    (4552.6 - 4420) * (100 * 20 / 4420).
Proof.
  split; [reflexivity|].
  destruct (proj1 long_order_result_fields example_long 100 20
              (result_of example_long 100 20))
    as (Hv & Hp & _); [by_evaluation | by_evaluation |].
  rewrite Hp, Hv. reflexivity.
Defined.

(** C1 as stated fails on its figure for the potential profit: at the
    example order the code returns 60.000000000000163, which is not within
    0.02 of the 60.03 the specification gives. *)
Lemma example_long_profit_is_not_60_03 :
  exists r : analysis,
    analyze_order example_long 100 20 = Return (Some r) /\
    r_potential_profit r = 60.000000000000163 /\
    within 0.02 (r_potential_profit r) 60.03 = false.
Proof.
  exists (result_of example_long 100 20). repeat split; by_evaluation.
Qed.

(** On prices that are not NaN the guard of each branch is the negation of
    the ordering invariant. *)
Lemma rejected_iff_unordered (o : order) :
  prices_comparable o = true -> rejected o = negb (ordering_invariant o).
Proof.
  unfold prices_comparable, rejected, ordering_invariant, ge, le.
  rewrite negb_true_iff, !orb_false_iff. intros [[Hp Ht] Hs].
  destruct (is_long o); rewrite negb_andb;
    rewrite !leb_ltb_dual by assumption; [reflexivity | apply orb_comm].
Qed.

(** C2, amended.  For an order whose three prices are not NaN, evaluated
    with a leverage and an entry price other than zero (so that no division
    raises): a result is emitted if and only if the directional ordering
    invariant holds and the computed potential loss is not zero; in every
    other case the evaluator returns absent, in particular for a long order
    with [stop_loss == entry_price] and for a short order with
    [take_profit >= entry_price]; and every emitted result satisfies the
    invariant. *)
Theorem ordering_invariant_decides_emission
    (o : order) (capital leverage : float) :
  prices_comparable o = true ->
  (leverage =? 0) = false ->
  (current_price o =? 0) = false ->
  ((exists r, analyze_order o capital leverage = Return (Some r)) <->
   ordering_invariant o = true /\
   (potential_loss o capital leverage =? 0) = false) /\
  (ordering_invariant o = false \/
   (potential_loss o capital leverage =? 0) = true ->
   analyze_order o capital leverage = Return None) /\
  (is_long o = true -> (stop_loss o =? current_price o) = true ->
   analyze_order o capital leverage = Return None) /\
  (is_long o = false -> ge (take_profit o) (current_price o) = true ->
   analyze_order o capital leverage = Return None) /\
  (forall r, analyze_order o capital leverage = Return (Some r) ->
             result_invariant r = true).
Proof.
  intros Hord Hlev Hprice.
  pose proof (rejected_iff_unordered o Hord) as Hrej.
  rewrite (analyze_order_runs o capital leverage Hlev Hprice), Hrej.
  refine (conj (conj _ _) (conj _ (conj _ (conj _ _)))).
  - intros [r H].
    destruct (ordering_invariant o); [|discriminate].
    destruct (potential_loss o capital leverage =? 0); [discriminate|auto].
  - intros [-> ->]. cbn. eauto.
  - intros [-> | ->]; [reflexivity|].
    destruct (ordering_invariant o); reflexivity.
  - intros Hlong Heq.
    assert (R : rejected o = true).
    { unfold rejected, ge. rewrite Hlong.
      now rewrite (eqb_leb_swap _ _ Heq). }
    rewrite Hrej in R. apply negb_true_iff in R. now rewrite R.
  - intros Hshort Hge.
    assert (R : rejected o = true).
    { unfold rejected. rewrite Hshort, Hge. apply orb_true_r. }
    rewrite Hrej in R. apply negb_true_iff in R. now rewrite R.
  - intros r H.
    destruct (ordering_invariant o) eqn:Hinv; [|discriminate].
    destruct (potential_loss o capital leverage =? 0); [discriminate|].
    injection H as <-. exact Hinv.
Qed.

(** [ordering_invariant_decides_emission] at a well-ordered long order. *)
Lemma ordering_invariant_decides_emission_witness :
  prices_comparable plain_long = true /\
  (5 =? 0) = false /\
  (current_price plain_long =? 0) = false /\
  result_invariant (result_of plain_long 1000 5) = true.
Proof.
  split; [by_evaluation|]. split; [by_evaluation|]. split; [by_evaluation|].
  destruct (ordering_invariant_decides_emission plain_long 1000 5)
    as (_ & _ & _ & _ & Hinv); [by_evaluation | by_evaluation | by_evaluation |].
  apply Hinv. by_evaluation.
Defined.

(** C2 as stated fails twice.  A long order whose target and stop are NaN
    passes both comparisons of the guard (a comparison with NaN is false), so
    a result is emitted although the invariant does not hold, neither on the
    order nor on the result.  And with a leverage of zero an order that
    violates the invariant raises instead of being absent. *)
Lemma nan_prices_pass_validation :
  (exists r : analysis,
      analyze_order nan_order 100 1 = Return (Some r) /\
      ordering_invariant nan_order = false /\
      result_invariant r = false) /\
  (ordering_invariant inverted_long = false /\
   analyze_order inverted_long 100 0 = Raise ZeroDivisionError).
Proof.
  split.
  - exists (result_of nan_order 100 1). repeat split; by_evaluation.
  - split; by_evaluation.
Qed.


(** C3: the code at the short order of the script's example (entry 4420,
    target 4000, stop 5000, capital 100, leverage 20).  The stop-loss
    percentage it stores is [(stop_loss - entry_price) / entry_price * 100],
    about +13.12, the formula of the long branch left as it was; the mirrored
    [(entry_price - stop_loss) / entry_price * 100] of the claim is about
    -13.12.  The other three fields are the mirrored ones. *)
Theorem short_stop_loss_pct_is_not_mirrored :
  exists r : analysis,
    analyze_order example_short 100 20 = Return (Some r) /\
    r_potential_profit r = (4420 - 4000) * (100 * 20 / 4420) /\
    r_potential_loss r = (5000 - 4420) * (100 * 20 / 4420) /\
    r_pct_profit r = (4420 - 4000) / 4420 * 100 /\
    r_pct_loss r = (5000 - 4420) / 4420 * 100 /\
    (r_pct_loss r =? (4420 - 5000) / 4420 * 100) = false /\
    within 0.005 (r_pct_loss r) 13.12 = true /\
    within 0.005 ((4420 - 5000) / 4420 * 100) (-13.12) = true.
Proof.
  exists (result_of example_short 100 20). repeat split; by_evaluation.
Qed.

End EvaluatorSpec.

(* ================================================================== *)
(** ** Division by zero, unknown directions, zero capital *)

Section EvaluatorEdges.

(** C5.  Whenever the loss the evaluator computes equals zero it returns
    absent; so in every emitted result the potential loss is not zero, the
    division that gives the profit/loss ratio has a non-zero divisor, and the
    only divisions that can raise are the two by the leverage and by the
    entry price, ahead of the guard. *)
Theorem zero_loss_is_guarded (o : order) (capital leverage : float) :
  ((leverage =? 0) = false -> (current_price o =? 0) = false ->
   (potential_loss o capital leverage =? 0) = true ->
   analyze_order o capital leverage = Return None) /\
  (forall r, analyze_order o capital leverage = Return (Some r) ->
     r_potential_loss r = potential_loss o capital leverage /\
     (r_potential_loss r =? 0) = false /\
     truediv (r_potential_profit r) (r_potential_loss r) =
       Return (r_potential_profit r / r_potential_loss r) /\
     r_profit_loss_ratio r = abs (r_potential_profit r / r_potential_loss r)) /\
  (analyze_order o capital leverage = Raise ZeroDivisionError ->
   (leverage =? 0) = true \/ (current_price o =? 0) = true).
Proof.
  refine (conj _ (conj _ _)).
  - intros Hlev Hprice Hzero.
    rewrite analyze_order_runs by assumption. rewrite Hzero.
    destruct (rejected o); reflexivity.
  - intros r H. apply analyze_order_emits in H.
    destruct H as (_ & _ & _ & Hloss & ->).
    unfold result_of, truediv.
    cbn [r_potential_loss r_potential_profit r_profit_loss_ratio].
    rewrite Hloss. auto.
  - rewrite analyze_order_cases.
    destruct (leverage =? 0); [auto|].
    destruct (current_price o =? 0); [auto|]. cbn [orb].
    destruct (rejected o || (potential_loss o capital leverage =? 0));
      intros H; discriminate H.
Qed.

(** [zero_loss_is_guarded] at a well-ordered long order without capital: its
    loss is zero and nothing is emitted. *)
Lemma zero_loss_is_guarded_witness :
  ordering_invariant plain_long = true /\
  (potential_loss plain_long 0 3 =? 0) = true /\
  analyze_order plain_long 0 3 = Return None.
Proof.
  split; [by_evaluation|]. split; [by_evaluation|].
  apply (proj1 (zero_loss_is_guarded plain_long 0 3)); by_evaluation.
Defined.



(** C9.  With a leverage equal to zero the evaluator raises the division
    error of [margin = capital / leverage], whatever the order and the
    capital; it does not return absent. *)
Theorem zero_leverage_raises (o : order) (capital leverage : float) :
  (leverage =? 0) = true ->
  analyze_order o capital leverage = Raise ZeroDivisionError /\
  analyze_order o capital leverage <> Return None.
Proof.
  intros H. rewrite (analyze_order_zero_leverage o capital leverage H).
  split; [reflexivity | discriminate].
Qed.

(** [zero_leverage_raises] at an order that violates the ordering, with a
    leverage of minus zero. *)
Lemma zero_leverage_raises_witness :
  (-0 =? 0) = true /\
  analyze_order inverted_long 100 (-0) = Raise ZeroDivisionError.
Proof.
  split; [reflexivity|].
  apply (zero_leverage_raises inverted_long 100 (-0)). reflexivity.
Defined.

(** C10, amended.  With a capital equal to zero, a finite leverage other
    than zero, an entry price other than zero and a finite distance between
    entry and stop (entry minus stop for a long order, stop minus entry
    otherwise), the position size is zero, so the potential loss is zero and
    the evaluator returns absent, whatever the target, the direction and the
    win rate. *)
Theorem zero_capital_yields_no_result (o : order) (capital leverage : float) :
  (capital =? 0) = true ->
  is_finite leverage = true ->
  (leverage =? 0) = false ->
  (current_price o =? 0) = false ->
  is_finite (loss_distance o) = true ->
  (position_size o capital leverage =? 0) = true /\
  (potential_loss o capital leverage =? 0) = true /\
  analyze_order o capital leverage = Return None.
Proof.
  intros Hcap Hfin Hlev Hprice Hdist.
  assert (Hnan : is_nan (current_price o) = false).
  { unfold loss_distance in Hdist.
    destruct (is_long o); apply sub_finite_not_nan in Hdist; tauto. }
  assert (Hsize : (position_size o capital leverage =? 0) = true).
  { unfold position_size. apply div_zero_l; [|assumption..].
    now apply mul_zero_l. }
  assert (Hzero : (potential_loss o capital leverage =? 0) = true).
  { unfold potential_loss. now apply mul_zero_r. }
  refine (conj Hsize (conj Hzero _)).
  rewrite analyze_order_runs by assumption.
  rewrite Hzero. destruct (rejected o); reflexivity.
Qed.

(** [zero_capital_yields_no_result] at a well-ordered long order. *)
Lemma zero_capital_yields_no_result_witness :
  (0 =? 0) = true /\ is_finite 20 = true /\ (20 =? 0) = false /\
  (current_price plain_long =? 0) = false /\
  is_finite (loss_distance plain_long) = true /\
  analyze_order plain_long 0 20 = Return None.
Proof.
  repeat (split; [by_evaluation|]).
  apply (zero_capital_yields_no_result plain_long 0 20); by_evaluation.
Defined.

(** C10 as stated fails where the arithmetic leaves the finite numbers.
    With capital 0 and leverage 1: an entry price of zero raises the division
    error instead of returning absent; a stop at minus infinity makes the
    loss [inf * 0], a NaN, which is not equal to zero, and a result is
    emitted.  With capital 0 and an infinite leverage the position value is
    already a NaN, and a result is emitted for a plain order. *)
Lemma zero_capital_can_raise_or_emit :
  analyze_order zero_entry_long 0 1 = Raise ZeroDivisionError /\
  (exists r, analyze_order unbounded_stop_long 0 1 = Return (Some r) /\
             is_nan (r_potential_loss r) = true) /\
  (exists r, analyze_order plain_long 0 infinity = Return (Some r) /\
             is_nan (r_position_value r) = true).
Proof.
  split; [by_evaluation|]. split.
  - exists (result_of unbounded_stop_long 0 1). split; by_evaluation.
  - exists (result_of plain_long 0 infinity). split; by_evaluation.
Qed.

End EvaluatorEdges.

(* ================================================================== *)
(** ** Stripping and scanning *)

Section Strings.

Variable p : ascii -> bool.


Lemma In_lstrip (x : ascii) (l : list ascii) :
  p x = false -> In x l -> In x (lstrip p l).
Proof.
  intros Hx. induction l as [|c l IH]; simpl; [tauto|].
  destruct (p c) eqn:Hc; [|intros H; exact H].
  intros [-> | H]; [congruence | auto].
Qed.

Lemma In_strip (x : ascii) (l : list ascii) :
  p x = false -> In x l -> In x (strip p l).
Proof.
  intros Hx H. unfold strip, rstrip.
  apply In_lstrip with (x := x) in H; [|assumption].
  apply In_rev in H. apply In_lstrip with (x := x) in H; [|assumption].
  now apply In_rev in H.
Qed.


End Strings.

Section Scanner.

Lemma scan_step_percent (st : scan) : scan_step st percent = None.
Proof. destruct st; reflexivity. Qed.

Lemma scan_all_percent (cs : list ascii) :
  In percent cs -> forall st, scan_all st cs = None.
Proof.
  induction cs as [|c cs IH]; simpl; [tauto|].
  intros [-> | H] st.
  - now rewrite scan_step_percent.
  - destruct (scan_step st c); [now apply IH | reflexivity].
Qed.

Lemma word_without_percent (cs : list ascii) (w : string) :
  In percent cs -> ~ In percent (chars w) ->
  (string_of_list_ascii (map lower cs) =? w)%string = false.
Proof.
  intros Hin Hw. apply String.eqb_neq. intros E. apply Hw.
  unfold chars. rewrite <- E, list_ascii_of_string_of_list_ascii.
  change percent with (lower percent). now apply in_map.
Qed.

Lemma float_of_unsigned_percent (cs : list ascii) :
  In percent cs -> float_of_unsigned cs = None.
Proof.
  intros H. unfold float_of_unsigned.
  rewrite !(word_without_percent cs) by
    (assumption || (cbn; intuition discriminate)).
  cbn [orb]. now rewrite scan_all_percent.
Qed.

Lemma float_of_ascii_no_percent (cs : list ascii) (f : float) :
  float_of_ascii cs = Return f -> ~ In percent cs.
Proof.
  intros H Hin. apply (In_strip is_space) in Hin; [|reflexivity].
  unfold float_of_ascii in H.
  destruct (strip is_space cs) as [|c r]; [destruct Hin|].
  assert (Hbody : forall body,
             (body = r /\ c <> percent) \/ body = c :: r ->
             float_of_unsigned body = None).
  { intros body [[-> Hc] | ->]; apply float_of_unsigned_percent.
    - destruct Hin as [E|E]; [congruence | assumption].
    - assumption. }
  destruct (Ascii.eqb c "-") eqn:Em.
  - apply Ascii.eqb_eq in Em.
    rewrite (Hbody r) in H; [discriminate|]. left. split; [reflexivity|].
    subst c. discriminate.
  - destruct (Ascii.eqb c "+") eqn:Ep.
    + apply Ascii.eqb_eq in Ep.
      rewrite (Hbody r) in H; [discriminate|]. left. split; [reflexivity|].
      subst c. discriminate.
    + rewrite (Hbody (c :: r)) in H; [discriminate | now right].
Qed.

(** An ASCII byte of a text is one of its code points. *)
Lemma decode_keeps_ascii (b : ascii) (bs : list ascii) :
  (N_of_ascii b <? 0x80)%N = true -> In b bs ->
  forall (pending : nat) (acc lo : N) (cps : list N),
    decode pending acc lo bs = Some cps -> In (N_of_ascii b) cps.
Proof.
  intros Hb. induction bs as [|c bs IH]; intros Hin; [destruct Hin|].
  assert (Hcons : forall n cps,
             option_map (cons n) (decode 0 0 0 bs) = Some cps ->
             n = N_of_ascii b \/ In b bs -> In (N_of_ascii b) cps).
  { intros n cps H Hn. destruct (decode 0 0 0 bs) as [t|] eqn:D; [|discriminate].
    injection H as <-. destruct Hn as [-> | Hn]; [now left | right].
    now apply (IH Hn 0%nat 0%N 0%N). }
  intros pending acc lo cps. cbn [decode].
  destruct Hin as [-> | Hin].
  - destruct pending as [|k].
    + rewrite Hb. intros H. apply (Hcons _ _ H). now left.
    + apply N.ltb_lt in Hb.
      replace (0x80 <=? N_of_ascii b)%N with false
        by (symmetry; apply N.leb_gt; exact Hb).
      discriminate.
  - destruct pending as [|k].
    + repeat match goal with
             | |- (if ?g then _ else _) = _ -> _ => destruct g
             end; try discriminate; try (now apply IH).
      intros H. apply (Hcons _ _ H). now right.
    + destruct ((0x80 <=? N_of_ascii c) && (N_of_ascii c <? 0xC0))%N;
        [|discriminate].
      destruct k as [|k]; [|now apply IH].
      match goal with
      | |- (if ?g then _ else _) = _ -> _ => destruct g
      end; [|discriminate].
      intros H. apply (Hcons _ _ H). now right.
Qed.

(** The percent sign is left as it is. *)
Lemma transform_keeps_percent (cps : list N) :
  In (N_of_ascii percent) cps ->
  forall cs, transform_decimal_and_space cps = Some cs -> In percent cs.
Proof.
  induction cps as [|c cps IH]; intros Hin cs; [destruct Hin|].
  cbn [transform_decimal_and_space].
  destruct (ascii_of_code_point c) as [a|] eqn:A; [|discriminate].
  destruct (transform_decimal_and_space cps) as [r|]; [|discriminate].
  intros [= <-]. destruct Hin as [-> | Hin].
  - left. injection A as <-. reflexivity.
  - right. now apply IH.
Qed.

(** A text [float()] accepts holds no percent sign. *)
Lemma float_of_chars_no_percent (cs : list ascii) (f : float) :
  float_of_chars cs = Return f -> ~ In percent cs.
Proof.
  unfold float_of_chars, code_points. intros H Hin.
  destruct (decode 0 0 0 cs) as [cps|] eqn:D; [|discriminate].
  destruct (transform_decimal_and_space cps) as [a|] eqn:T; [|discriminate].
  apply (float_of_ascii_no_percent a f H).
  apply (transform_keeps_percent cps); [|assumption].
  now apply (decode_keeps_ascii percent cs eq_refl Hin 0%nat 0%N 0%N).
Qed.

(** [float()] raises nothing but [ValueError]. *)
Lemma float_of_chars_raises (cs : list ascii) (e : exn) :
  float_of_chars cs = Raise e -> e = ValueError.
Proof.
  unfold float_of_chars, float_of_ascii.
  destruct (code_points cs) as [cps|]; [|congruence].
  destruct (transform_decimal_and_space cps) as [a|]; [|congruence].
  destruct (strip is_space a) as [|c r];
    [| destruct (Ascii.eqb c "-"); [| destruct (Ascii.eqb c "+")]];
    match goal with
    | |- context [float_of_unsigned ?b] => destruct (float_of_unsigned b)
    end; intros H; congruence.
Qed.

End Scanner.

(* ================================================================== *)
(** ** The resolver against the specification *)

Section ResolverSpec.



(** The resolver raises nothing but [ValueError]. *)
Lemma calc_price_from_input_raises (cp : float) (v : Py.value) (e : exn) :
  calc_price_from_input cp v = Raise e -> e = ValueError.
Proof.
  unfold calc_price_from_input, float_of.
  destruct v as [f|s]; [discriminate|].
  destruct (endswith (list_ascii_of_string s) percent).
  - destruct (float_of_chars (strip is_percent (list_ascii_of_string s)))
      as [x|e'] eqn:E; cbn; [discriminate|].
    intros [= <-]. now apply float_of_chars_raises in E.
  - apply float_of_chars_raises.
Qed.




(** The first loop stops at the first row the resolver rejects. *)
Lemma resolve_loop_malformed (rows : list input_row) (row : input_row) :
  In row rows ->
  (exists e, calc_price_from_input (o2 row) (o3 row) = Raise e) \/
  (exists e, calc_price_from_input (o2 row) (o4 row) = Raise e) ->
  forall acc, resolve_loop rows acc = Raise ValueError.
Proof.
  induction rows as [|r rows IH]; intros Hin Hbad acc; [destruct Hin|].
  cbn [resolve_loop].
  destruct (calc_price_from_input (o2 r) (o3 r)) as [tp|e] eqn:Etp.
  2:{ apply calc_price_from_input_raises in Etp. now subst e. }
  destruct (calc_price_from_input (o2 r) (o4 r)) as [sl|e] eqn:Esl.
  2:{ apply calc_price_from_input_raises in Esl. now subst e. }
  cbn [bind]. destruct Hin as [-> | Hin]; [|now apply IH].
  destruct Hbad as [[e Hb] | [e Hb]]; congruence.
Qed.

(** C6, amended.  A string that ends in a percent sign and has nothing
    numeric left once every leading and trailing percent sign is removed
    makes the resolver raise [ValueError]; the error is not caught, so a
    table holding such a string as target or stop makes the driver raise it
    before any order is evaluated, whatever the capital, the leverage and the
    other rows. *)
Theorem malformed_percentage_is_fatal
    (capital leverage entry_price : float) (v : Py.value)
    (rows : list input_row) (row : input_row) :
  malformed_percentage v = true ->
  In row rows ->
  o3 row = v \/ o4 row = v ->
  calc_price_from_input entry_price v = Raise ValueError /\
  analyze_trading_orders capital leverage rows = Raise ValueError.
Proof.
  intros Hv Hin Hspec.
  assert (Hraise : forall cp, calc_price_from_input cp v = Raise ValueError).
  { intros cp. destruct v as [f|s]; [discriminate|].
    cbn in Hv. apply andb_true_iff in Hv. destruct Hv as [Hend Hun].
    unfold calc_price_from_input. unfold chars in Hend, Hun. rewrite Hend.
    unfold unparsable in Hun.
    destruct (float_of_chars (strip is_percent (list_ascii_of_string s)))
      as [x|e] eqn:E; [discriminate|].
    apply float_of_chars_raises in E. now subst e. }
  split; [apply Hraise|].
  unfold analyze_trading_orders.
  rewrite (resolve_loop_malformed rows row Hin); [reflexivity|].
  destruct Hspec as [-> | ->]; [left | right]; eauto.
Qed.

(** [malformed_percentage_is_fatal] at a table whose second row has a
    target that is no number. *)
Lemma malformed_percentage_is_fatal_witness :
  malformed_percentage (Str "abc%") = true /\
  analyze_trading_orders 100 20 [row_short; row_malformed] = Raise ValueError.
Proof.
  split; [by_evaluation|].
  apply (malformed_percentage_is_fatal 100 20 100 (Str "abc%")
           [row_short; row_malformed] row_malformed).
  - by_evaluation.
  - right. left. reflexivity.
  - left. reflexivity.
Defined.

(** C6 as stated fails on a doubled percent sign: the text before the final
    sign of ["5%%"] is ["5%"], which [float()] rejects, yet the resolver
    strips both signs and returns [100 * 1.05]. *)
Lemma doubled_percent_is_accepted :
  ends_in_percent (Str "5%%") = true /\
  percent_prefix "5%%" = Some (chars "5%") /\
  float_of_chars (chars "5%") = Raise ValueError /\
  calc_price_from_input 100 (Str "5%%") = Return 105.
Proof.
  repeat split; by_evaluation.
Qed.

End ResolverSpec.

(* ================================================================== *)
(** ** The driver against the specification *)

Section DriverSpec.

Variables capital leverage : float.

(** The first loop appends the resolved orders in the order of the rows. *)
Lemma resolve_loop_resolved (rows : list input_row) (orders : list order) :
  Forall2 resolves_to rows orders ->
  forall acc, resolve_loop rows acc = Return (acc ++ orders).
Proof.
  induction 1 as [|row o rows orders (tp & sl & Htp & Hsl & ->) _ IH];
    intros acc; cbn [resolve_loop].
  - now rewrite app_nil_r.
  - rewrite Htp, Hsl. cbn [bind]. rewrite IH, <- app_assoc. reflexivity.
Qed.

(** The second loop appends what each order emits, in the order of the
    orders. *)
Lemma analyze_loop_results (orders : list order) :
  Forall (evaluates capital leverage) orders ->
  forall acc,
    analyze_loop orders capital leverage acc =
      Return (acc ++ valid_results capital leverage orders).
Proof.
  induction 1 as [|o orders [res Hres] _ IH]; intros acc;
    cbn [analyze_loop valid_results flat_map].
  - now rewrite app_nil_r.
  - unfold emitted. rewrite Hres. cbn [bind].
    fold (valid_results capital leverage orders).
    destruct res as [r|]; rewrite IH; [|reflexivity].
    now rewrite <- app_assoc.
Qed.

(** No order emits a result exactly when every order is absent. *)
Lemma valid_results_nil (orders : list order) :
  Forall (evaluates capital leverage) orders ->
  valid_results capital leverage orders = [] <->
  Forall (fun o => analyze_order o capital leverage = Return None) orders.
Proof.
  induction 1 as [|o orders [res Hres] _ IH];
    cbn [valid_results flat_map].
  - split; [constructor | reflexivity].
  - fold (valid_results capital leverage orders).
    unfold emitted. rewrite Hres. split.
    + destruct res as [r|]; [discriminate|]. cbn [app].
      intros E. constructor; [assumption | now apply IH].
    + intros F. inversion F as [|? ? Ho Hrest]; subst.
      rewrite Hres in Ho. injection Ho as ->. cbn [app]. now apply IH.
Qed.

(** C7, amended.  For a table whose rows all resolve and whose orders are
    all evaluated without raising: when no order passes validation (every
    order is absent), the driver prints the no-valid-orders message and
    returns [None], not an empty table; otherwise it returns the table of the
    emitted results, in the order of the input, after displaying and
    plotting it.  The empty table is the first case, whatever the capital
    and the leverage. *)
Theorem no_valid_orders_or_table
    (rows : list input_row) (orders : list order) :
  Forall2 resolves_to rows orders ->
  Forall (evaluates capital leverage) orders ->
  (Forall (fun o => analyze_order o capital leverage = Return None) orders ->
   analyze_trading_orders capital leverage rows =
     Return ([Print msg_no_valid_orders], None)) /\
  (valid_results capital leverage orders <> [] ->
   analyze_trading_orders capital leverage rows =
     let df := valid_results capital leverage orders in
     Return ([SetFloatFormat; Print msg_results; Display df; PlotHeatmap df],
             Some df)) /\
  analyze_trading_orders capital leverage [] =
    Return ([Print msg_no_valid_orders], None).
Proof.
  intros Hrows Horders.
  assert (Hrun : analyze_trading_orders capital leverage rows =
                 match valid_results capital leverage orders with
                 | [] => Return ([Print msg_no_valid_orders], None)
                 | _ :: _ =>
                     let df := valid_results capital leverage orders in
                     Return ([SetFloatFormat; Print msg_results; Display df;
                              PlotHeatmap df], Some df)
                 end).
  { unfold analyze_trading_orders.
    rewrite (resolve_loop_resolved rows orders Hrows). cbn [bind app].
    rewrite (analyze_loop_results orders Horders). cbn [bind app].
    destruct (valid_results capital leverage orders); reflexivity. }
  refine (conj _ (conj _ _)).
  - intros Habsent. apply (valid_results_nil orders Horders) in Habsent.
    now rewrite Hrun, Habsent.
  - intros Hsome. rewrite Hrun.
    destruct (valid_results capital leverage orders); [congruence|reflexivity].
  - reflexivity.
Qed.

End DriverSpec.

Section DriverExamples.

Local Ltac resolved :=
  repeat first
    [ apply Forall2_nil
    | apply Forall2_cons;
      [ eexists; eexists; split; [by_evaluation|]; split; [by_evaluation|];
        reflexivity | ] ].

Local Ltac evaluated :=
  repeat first
    [ apply Forall_nil
    | apply Forall_cons; [ eexists; by_evaluation | ] ].

(** [no_valid_orders_or_table] at a table of two rows of which the second
    fails validation: the driver returns the one-row table of the first. *)
Lemma no_valid_orders_or_table_witness :
  exists r : analysis,
    analyze_order example_short 100 20 = Return (Some r) /\
    analyze_trading_orders 100 20 [row_short; row_inverted] =
      Return ([SetFloatFormat; Print msg_results; Display [r]; PlotHeatmap [r]],
              Some [r]).
Proof.
  exists (result_of example_short 100 20). split; [by_evaluation|].
  refine (proj1 (proj2 (no_valid_orders_or_table 100 20
            [row_short; row_inverted] [example_short; inverted_long] _ _)) _).
  - resolved.
  - evaluated.
  - vm_compute. discriminate.
Defined.

(** C7 as stated fails on the runs that raise.  A table with a valid order
    and a malformed row returns no table: the resolver's error ends the
    call.  A table whose only order violates the ordering, evaluated with a
    leverage of zero, does not give the no-valid-orders outcome: the division
    error ends the call. *)
Lemma fatal_rows_preempt_the_table :
  (resolves_to row_short example_short /\
   (exists r, analyze_order example_short 100 20 = Return (Some r)) /\
   analyze_trading_orders 100 20 [row_short; row_malformed] = Raise ValueError)
  /\
  (resolves_to row_inverted inverted_long /\
   ordering_invariant inverted_long = false /\
   analyze_trading_orders 100 0 [row_inverted] = Raise ZeroDivisionError).
Proof.
  split; (split; [|split]); try by_evaluation.
  - exists 4000, 5000. repeat split; by_evaluation.
  - eexists. by_evaluation.
  - exists 110, 120. repeat split; by_evaluation.
Qed.

End DriverExamples.

(* ================================================================== *)
(** ** Further properties *)

Section Further.

(** X1.  The evaluator's three outcomes: it raises the division error exactly
    when the leverage or the entry price is zero; otherwise it returns absent
    exactly when the guard of the branch rejects the order or the computed
    loss is zero; otherwise it returns the result. *)
Theorem analyze_order_outcomes (o : order) (capital leverage : float) :
  (analyze_order o capital leverage = Raise ZeroDivisionError <->
   (leverage =? 0) || (current_price o =? 0) = true) /\
  (analyze_order o capital leverage = Return None <->
   (leverage =? 0) || (current_price o =? 0) = false /\
   rejected o || (potential_loss o capital leverage =? 0) = true) /\
  (analyze_order o capital leverage =
     Return (Some (result_of o capital leverage)) <->
   (leverage =? 0) || (current_price o =? 0) = false /\
   rejected o || (potential_loss o capital leverage =? 0) = false) /\
  analyze_order o capital leverage <> Raise ValueError.
Proof.
  rewrite analyze_order_cases.
  destruct ((leverage =? 0) || (current_price o =? 0));
    destruct (rejected o || (potential_loss o capital leverage =? 0));
    repeat split; try discriminate; try tauto;
    try (intros [? ?]; discriminate).
Qed.

(** The first row of the script's example block, end to end: a stop given
    as ["-8.7%"] of 4420 resolves to 4035.46 and a target given as ["3%"] to
    4552.6 (up to rounding), and with capital 100 and leverage 20 the driver
    returns a one-row table with a potential profit of 60.00, a potential
    loss of 174.00, a ratio of 0.345 and an expected value of -33.60. *)
Theorem script_first_row :
  calc_price_from_input 4420 (Str "-8.7%") = Return 4035.46 /\
  calc_price_from_input 4420 (Str "3%") = Return 4552.6000000000004 /\
  exists r : analysis,
    analyze_trading_orders 100 20 [row_long_3pct] =
      Return ([SetFloatFormat; Print msg_results; Display [r]; PlotHeatmap [r]],
              Some [r]) /\
    r_stop_loss r = 4035.46 /\
    within 0.005 (r_potential_profit r) 60 = true /\
    within 0.005 (r_potential_loss r) 174 = true /\
    within 0.0005 (r_profit_loss_ratio r) 0.345 = true /\
    within 0.005 (r_expected_val r) (-33.6) = true.
Proof.
  split; [by_evaluation|]. split; [by_evaluation|].
  exists (result_of
            {| direction := long_label; win_rate := 0.6; current_price := 4420;
               take_profit := 4552.6000000000004; stop_loss := 4035.46 |}
            100 20).
  repeat split; by_evaluation.
Qed.

End Further.

(* ================================================================== *)
(** ** Signs in binary64 *)

Section FloatSigns.

(** Rounding keeps the sign it is given. *)
Lemma binary_round_aux_sign (s : bool) (m e : Z) (l : location) :
  match binary_round_aux prec emax s m e l with
  | S754_nan => True
  | S754_zero s' | S754_infinity s' | S754_finite s' _ _ => s' = s
  end.
Proof.
  unfold binary_round_aux.
  destruct (shr_fexp prec emax m e l) as [mrs' e'].
  destruct (shr_fexp prec emax _ e' loc_Exact) as [mrs'' e''].
  destruct (shr_m mrs''); [reflexivity | | exact I].
  destruct (e'' <=? emax - prec)%Z; reflexivity.
Qed.

Lemma binary_round_aux_sign_clear (m e : Z) (l : location) :
  sf_sign_clear (binary_round_aux prec emax false m e l) = true.
Proof.
  pose proof (binary_round_aux_sign false m e l) as H.
  destruct (binary_round_aux _ _ _ _ _ _); simpl; subst; auto.
Qed.

Lemma SFmul_sign_clear (x y : spec_float) :
  sf_sign_clear x = true -> sf_sign_clear y = true ->
  sf_sign_clear (SF64mul x y) = true.
Proof.
  unfold SF64mul, SFmul.
  destruct x as [sx|sx| |sx mx ex], y as [sy|sy| |sy my ey]; simpl;
    intros Hx Hy; try reflexivity;
    apply negb_true_iff in Hx; apply negb_true_iff in Hy; subst;
    try reflexivity.
  apply binary_round_aux_sign_clear.
Qed.

Lemma SFdiv_sign_clear (x y : spec_float) :
  sf_sign_clear x = true -> sf_sign_clear y = true ->
  sf_sign_clear (SF64div x y) = true.
Proof.
  unfold SF64div, SFdiv.
  destruct x as [sx|sx| |sx mx ex], y as [sy|sy| |sy my ey]; simpl;
    intros Hx Hy; try reflexivity;
    apply negb_true_iff in Hx; apply negb_true_iff in Hy; subst;
    try reflexivity.
  cbn [xorb].
  destruct (SFdiv_core_binary prec emax (Zpos mx) ex (Zpos my) ey)
    as [[mz ez] lz].
  apply binary_round_aux_sign_clear.
Qed.

(** The number of binary digits of a mantissa brackets it. *)
Lemma digits2_pos_bounds (m : positive) :
  (2 ^ (Zpos (digits2_pos m) - 1) <= Zpos m < 2 ^ Zpos (digits2_pos m))%Z.
Proof.
  induction m as [m IH|m IH|]; cbn [digits2_pos];
    [| |cbn; lia];
    rewrite Pos2Z.inj_succ, Z.pow_succ_r by lia;
    replace (Z.succ (Zpos (digits2_pos m)) - 1)%Z
      with (Z.succ (Zpos (digits2_pos m) - 1))%Z by lia;
    rewrite Z.pow_succ_r by lia; lia.
Qed.

Lemma iter_xO_pow (d m : positive) :
  Zpos (Pos.iter xO m d) = (Zpos m * 2 ^ Zpos d)%Z.
Proof.
  induction d as [|d IH] using Pos.peano_ind.
  - cbn. lia.
  - rewrite Pos.iter_succ, Pos2Z.inj_xO, IH, Pos2Z.inj_succ, Z.pow_succ_r
      by lia.
    lia.
Qed.

(** Aligning a mantissa to a smaller exponent multiplies it by a power of
    two. *)
Lemma shl_align_value (m : positive) (e ez : Z) :
  (ez <= e)%Z ->
  Zpos (fst (shl_align m e ez)) = (Zpos m * 2 ^ (e - ez))%Z.
Proof.
  intros H. unfold shl_align.
  destruct (ez - e)%Z as [|d|d] eqn:E.
  - replace (e - ez)%Z with 0%Z by lia. cbn [fst]. rewrite Z.pow_0_r. lia.
  - lia.
  - cbn [fst]. rewrite iter_xO_pow.
    replace (e - ez)%Z with (Zpos d) by lia. reflexivity.
Qed.

(** A valid mantissa has at most 53 digits, and exactly 53 above the least
    exponent. *)
Lemma bounded_canonical (m : positive) (e : Z) :
  bounded prec emax m e = true ->
  (Zpos (digits2_pos m) <= 53 /\ -1074 <= e /\
   (e = -1074 \/ Zpos (digits2_pos m) = 53))%Z.
Proof.
  unfold bounded, canonical_mantissa, fexp, SpecFloat.emin, prec, emax.
  intros H. apply andb_true_iff in H. destruct H as [H _].
  apply Z.eqb_eq in H. lia.
Qed.

(** Of two valid numbers the one with the smaller exponent is the smaller. *)
Lemma magnitude_lt (ma mb : positive) (ea eb : Z) :
  bounded prec emax ma ea = true -> bounded prec emax mb eb = true ->
  (ea < eb)%Z ->
  (Zpos (fst (shl_align ma ea (Z.min ea eb)))
   < Zpos (fst (shl_align mb eb (Z.min ea eb))))%Z.
Proof.
  intros Ha Hb Hlt.
  apply bounded_canonical in Ha. apply bounded_canonical in Hb.
  rewrite !shl_align_value by lia.
  rewrite Z.min_l by lia. rewrite Z.sub_diag, Z.pow_0_r, Z.mul_1_r.
  pose proof (digits2_pos_bounds ma) as Da.
  pose proof (digits2_pos_bounds mb) as Db.
  assert (Hdb : Zpos (digits2_pos mb) = 53%Z) by lia.
  rewrite Hdb in Db. change (2 ^ (53 - 1))%Z with 4503599627370496%Z in Db.
  assert (Ha53 : (2 ^ Zpos (digits2_pos ma) <= 2 ^ 53)%Z)
    by (apply Z.pow_le_mono_r; lia).
  change (2 ^ 53)%Z with 9007199254740992%Z in Ha53.
  assert (H2 : (2 ^ 1 <= 2 ^ (eb - ea))%Z) by (apply Z.pow_le_mono_r; lia).
  change (2 ^ 1)%Z with 2%Z in H2.
  nia.
Qed.

Lemma magnitude_same_exp (ma mb : positive) (e : Z) :
  Zpos (fst (shl_align ma e (Z.min e e))) = Zpos ma /\
  Zpos (fst (shl_align mb e (Z.min e e))) = Zpos mb.
Proof.
  rewrite !shl_align_value by lia.
  rewrite Z.min_id, Z.sub_diag, Z.pow_0_r. lia.
Qed.

Lemma binary_normalize_pos_sign (m : positive) (e : Z) :
  sf_sign_clear (binary_normalize prec emax (Zpos m) e false) = true.
Proof.
  unfold binary_normalize, binary_round.
  destruct (shl_align m e _) as [mz ez].
  apply binary_round_aux_sign_clear.
Qed.

(** The difference of a number and one it is not below has its sign bit
    clear, or is a NaN. *)
Lemma SFsub_sign_clear (x y : spec_float) :
  valid_binary x = true -> valid_binary y = true ->
  SFleb x y = false ->
  sf_sign_clear (SF64sub x y) = true.
Proof.
  unfold SFleb, SF64sub.
  destruct x as [sx|sx| |sx mx ex], y as [sy|sy| |sy my ey];
    cbn [SFcompare SFsub sf_sign_clear valid_binary]; intros Vx Vy H;
    try reflexivity; try discriminate H;
    try (destruct sx, sy; (reflexivity || discriminate H));
    try (destruct sx; (reflexivity || discriminate H));
    try (destruct sy; (reflexivity || discriminate H)).
  assert (D : exists p,
             (cond_Zopp sx (Zpos (fst (shl_align mx ex (Z.min ex ey))))
              - cond_Zopp sy (Zpos (fst (shl_align my ey (Z.min ex ey)))))%Z
             = Zpos p).
  { assert (G : forall z, (0 < z)%Z -> exists p, z = Zpos p)
      by (intros [|p|p] Hz; [lia | eauto | lia]).
    apply G.
    destruct sx, sy; cbn [cond_Zopp]; cbn in H; try discriminate H; [|lia|].
    - destruct (ex ?= ey)%Z eqn:E; try discriminate H.
      + apply Z.compare_eq in E. subst ey.
        destruct (magnitude_same_exp mx my ex) as [-> ->].
        destruct (Pos.compare_cont Eq mx my) eqn:C; try discriminate H.
        change (Pos.compare_cont Eq mx my) with (mx ?= my)%positive in C.
        rewrite Pos.compare_lt_iff in C. lia.
      + rewrite Z.compare_lt_iff in E.
        pose proof (magnitude_lt mx my ex ey Vx Vy E). lia.
    - destruct (ex ?= ey)%Z eqn:E; try discriminate H.
      + apply Z.compare_eq in E. subst ey.
        destruct (magnitude_same_exp mx my ex) as [-> ->].
        destruct (Pos.compare_cont Eq mx my) eqn:C; try discriminate H.
        change (Pos.compare_cont Eq mx my) with (mx ?= my)%positive in C.
        rewrite Pos.compare_gt_iff in C. lia.
      + rewrite Z.compare_gt_iff in E.
        pose proof (magnitude_lt my mx ey ex Vy Vx E) as M.
        rewrite (Z.min_comm ey ex) in M. lia. }
  destruct D as [p ->]. apply binary_normalize_pos_sign.
Qed.

(** The same facts on floats. *)

Lemma sub_sign_clear (a b : float) :
  (a <=? b) = false -> sf_sign_clear (Prim2SF (a - b)) = true.
Proof.
  rewrite FloatAxioms.leb_spec, sub_spec.
  apply SFsub_sign_clear; apply Prim2SF_valid.
Qed.

Lemma mul_sign_clear (a b : float) :
  sf_sign_clear (Prim2SF a) = true -> sf_sign_clear (Prim2SF b) = true ->
  sf_sign_clear (Prim2SF (a * b)) = true.
Proof. rewrite mul_spec. apply SFmul_sign_clear. Qed.

Lemma div_sign_clear (a b : float) :
  sf_sign_clear (Prim2SF a) = true -> sf_sign_clear (Prim2SF b) = true ->
  sf_sign_clear (Prim2SF (a / b)) = true.
Proof. rewrite div_spec. apply SFdiv_sign_clear. Qed.

Lemma positive_sign_clear (x : float) :
  (0 <? x) = true -> sf_sign_clear (Prim2SF x) = true.
Proof.
  rewrite FloatAxioms.ltb_spec. unfold SFltb.
  change (Prim2SF 0) with (S754_zero false).
  destruct (Prim2SF x) as [s|s| |s m e]; cbn; intros H; try discriminate H;
    destruct s; (reflexivity || discriminate H).
Qed.

Lemma sign_clear_not_negative (x : float) :
  sf_sign_clear (Prim2SF x) = true -> (x <? 0) = false.
Proof.
  rewrite FloatAxioms.ltb_spec. unfold SFltb.
  change (Prim2SF 0) with (S754_zero false).
  destruct (Prim2SF x) as [s|s| |s m e]; cbn; intros H; try reflexivity;
    apply negb_true_iff in H; subst; reflexivity.
Qed.

Lemma sign_clear_positive (x : float) :
  sf_sign_clear (Prim2SF x) = true -> is_nan x = false -> (x =? 0) = false ->
  (0 <? x) = true.
Proof.
  rewrite is_nan_spec, FloatAxioms.eqb_spec, FloatAxioms.ltb_spec.
  unfold SFeqb, SFltb. change (Prim2SF 0) with (S754_zero false).
  destruct (Prim2SF x) as [s|s| |s m e]; cbn; intros H N Z;
    try discriminate; apply negb_true_iff in H; subst; reflexivity.
Qed.

Lemma sign_clear_abs (x : float) :
  sf_sign_clear (Prim2SF x) = true -> abs x = x.
Proof.
  intros H. apply Prim2SF_inj. rewrite FloatAxioms.abs_spec.
  destruct (Prim2SF x) as [s|s| |s m e]; cbn in *; try reflexivity;
    apply negb_true_iff in H; subst; reflexivity.
Qed.

Lemma abs_not_negative (x : float) : (abs x <? 0) = false.
Proof.
  apply sign_clear_not_negative. rewrite FloatAxioms.abs_spec.
  destruct (Prim2SF x); reflexivity.
Qed.

(** Multiplying by one changes nothing. *)
Lemma mul_1_r (x : float) : x * 1 = x.
Proof.
  apply Prim2SF_inj. rewrite mul_spec.
  pose proof (Prim2SF_valid x) as V.
  change (Prim2SF 1) with (S754_finite false 4503599627370496 (-52)).
  destruct (Prim2SF x) as [s|s| |s m e]; unfold SF64mul, SFmul;
    try (destruct s; reflexivity); try reflexivity.
  cbn [valid_binary] in V. rewrite xorb_false_r.
  unfold bounded in V. apply andb_true_iff in V. destruct V as [Vc Ve].
  unfold canonical_mantissa in Vc. apply Z.eqb_eq in Vc.
  rewrite Pos.mul_comm. cbn [Pos.mul].
  unfold binary_round_aux, shr_fexp.
  cbn [Zdigits2 digits2_pos shr_record_of_loc].
  match goal with
  | |- context [fexp prec emax (Zpos ?d + (e + -52))] =>
      replace (Zpos d + (e + -52))%Z with (Zpos (digits2_pos m) + e)%Z by lia
  end.
  rewrite Vc. replace (e - (e + -52))%Z with 52%Z by lia.
  cbn [shr].
  match goal with
  | |- context [SpecFloat.iter_pos shr_1 52 ?rec] =>
      change (SpecFloat.iter_pos shr_1 52 rec)
        with {| shr_m := Zpos m; shr_r := false; shr_s := false |}
  end.
  cbn [shr_m loc_of_shr_record round_nearest_even].
  replace (e + -52 + 52)%Z with e by lia.
  cbn [Zdigits2]. rewrite Vc, Z.sub_diag. cbn [shr shr_m].
  now rewrite Ve.
Qed.




End FloatSigns.

(* ================================================================== *)
(** ** Signs of the evaluator's figures *)

Section EvaluatorSigns.

Variables (o : order) (capital leverage : float).

(** The two distances of an order that passed the guard of its branch have
    their sign bit clear, or are NaN. *)
Lemma accepted_distances :
  rejected o = false ->
  sf_sign_clear (Prim2SF (profit_distance o)) = true /\
  sf_sign_clear (Prim2SF (loss_distance o)) = true.
Proof.
  unfold rejected, profit_distance, loss_distance, ge, le.
  destruct (is_long o); intros H; apply orb_false_iff in H;
    destruct H as [H1 H2]; split; now apply sub_sign_clear.
Qed.

(** X2.  With a positive capital, a positive leverage and a positive entry
    price, the potential profit and the potential loss of an emitted result
    are never negative, the loss is positive unless it is a NaN, and the
    ratio is the plain quotient of the two (taking the absolute value
    changes nothing). *)
Theorem profit_and_loss_are_not_negative (r : analysis) :
  (0 <? capital) = true ->
  (0 <? leverage) = true ->
  (0 <? current_price o) = true ->
  analyze_order o capital leverage = Return (Some r) ->
  (r_potential_profit r <? 0) = false /\
  (r_potential_loss r <? 0) = false /\
  (is_nan (r_potential_loss r) = false -> (0 <? r_potential_loss r) = true) /\
  r_profit_loss_ratio r = r_potential_profit r / r_potential_loss r.
Proof.
  intros Hc Hl Hp H. apply analyze_order_emits in H.
  destruct H as (_ & _ & Hrej & Hloss & ->).
  destruct (accepted_distances Hrej) as [Hpd Hld].
  assert (Hsize : sf_sign_clear (Prim2SF (position_size o capital leverage))
                  = true).
  { unfold position_size.
    apply div_sign_clear; [apply mul_sign_clear|];
      now apply positive_sign_clear. }
  assert (Hpp : sf_sign_clear (Prim2SF (potential_profit o capital leverage))
                = true)
    by (unfold potential_profit; now apply mul_sign_clear).
  assert (Hpl : sf_sign_clear (Prim2SF (potential_loss o capital leverage))
                = true)
    by (unfold potential_loss; now apply mul_sign_clear).
  unfold result_of.
  cbn [r_potential_profit r_potential_loss r_profit_loss_ratio].
  repeat apply conj.
  - now apply sign_clear_not_negative.
  - now apply sign_clear_not_negative.
  - intros Hnan. now apply sign_clear_positive.
  - apply sign_clear_abs. now apply div_sign_clear.
Qed.


End EvaluatorSigns.

Section EvaluatorSignsExamples.

(** [profit_and_loss_are_not_negative] at the short order of the script. *)
Lemma profit_and_loss_are_not_negative_witness :
  (0 <? 100) = true /\ (0 <? 20) = true /\
  (0 <? current_price example_short) = true /\
  (r_potential_loss (result_of example_short 100 20) <? 0) = false.
Proof.
  repeat (split; [by_evaluation|]).
  apply (profit_and_loss_are_not_negative example_short 100 20
           (result_of example_short 100 20)); by_evaluation.
Defined.

End EvaluatorSignsExamples.

(* ================================================================== *)
(** ** Edge cases of the resolver *)

Section ResolverEdges.




(** Stripping a text made of stripped characters leaves nothing. *)
Lemma lstrip_all (p : ascii -> bool) (l : list ascii) :
  forallb p l = true -> lstrip p l = [].
Proof.
  induction l as [|c l IH]; cbn; [reflexivity|].
  intros H. apply andb_true_iff in H. destruct H as [-> H]. auto.
Qed.

(** X4.  A price given as the empty string, or as a string made of percent
    signs only, is rejected with [ValueError], whatever the entry price. *)
Theorem only_percent_signs_is_rejected (entry_price : float) (s : string) :
  only_percent_signs s = true ->
  calc_price_from_input entry_price (Str s) = Raise ValueError.
Proof.
  unfold only_percent_signs, chars, calc_price_from_input, float_of.
  intros H.
  destruct (endswith (list_ascii_of_string s) percent).
  - unfold strip, rstrip. rewrite (lstrip_all _ _ H). reflexivity.
  - destruct (float_of_chars (list_ascii_of_string s)) as [f|e] eqn:E.
    + destruct (list_ascii_of_string s) as [|c l] eqn:L;
        [discriminate E|].
      exfalso. apply (float_of_chars_no_percent _ _ E).
      cbn in H. apply andb_true_iff in H. destruct H as [Hc _].
      apply Ascii.eqb_eq in Hc. left. exact Hc.
    + apply float_of_chars_raises in E. now subst e.
Qed.

End ResolverEdges.

Section ResolverEdgesExamples.


(** [only_percent_signs_is_rejected] at a doubled percent sign. *)
Lemma only_percent_signs_is_rejected_witness :
  only_percent_signs "%%" = true /\
  calc_price_from_input 4420 (Str "%%") = Raise ValueError.
Proof.
  split; [reflexivity|].
  apply (only_percent_signs_is_rejected 4420 "%%"). reflexivity.
Defined.

End ResolverEdgesExamples.

(* ================================================================== *)
(** ** The driver, case by case *)

Section DriverCases.

Variables capital leverage : float.

(** The evaluator raises for this order. *)
Let raises (o : order) : bool := (leverage =? 0) || (current_price o =? 0).

(** The first loop: a [ValueError] at the first row the resolver rejects,
    the resolved orders otherwise. *)
Lemma resolve_loop_cases (rows : list input_row) :
  forall acc,
    resolve_loop rows acc =
      if existsb unresolvable_row rows then Raise ValueError
      else Return (acc ++ orders_of rows).
Proof.
  induction rows as [|row rows IH]; intros acc;
    cbn [resolve_loop existsb orders_of flat_map].
  - now rewrite app_nil_r.
  - unfold unresolvable_row at 1, order_of_row at 1.
    destruct (calc_price_from_input (o2 row) (o3 row)) as [tp|e] eqn:Etp.
    2:{ apply calc_price_from_input_raises in Etp. now subst e. }
    destruct (calc_price_from_input (o2 row) (o4 row)) as [sl|e] eqn:Esl.
    2:{ apply calc_price_from_input_raises in Esl. now subst e. }
    cbn [bind orb]. rewrite IH. fold (orders_of rows).
    destruct (existsb unresolvable_row rows); [reflexivity|].
    now rewrite <- app_assoc.
Qed.

(** The second loop: a [ZeroDivisionError] at the first order that divides
    by zero, the emitted results otherwise. *)
Lemma analyze_loop_cases (orders : list order) :
  forall acc,
    analyze_loop orders capital leverage acc =
      if existsb raises orders then Raise ZeroDivisionError
      else Return (acc ++ valid_results capital leverage orders).
Proof.
  induction orders as [|o orders IH]; intros acc;
    cbn [analyze_loop existsb valid_results flat_map].
  - now rewrite app_nil_r.
  - fold (valid_results capital leverage orders).
    unfold emitted, raises at 1. rewrite analyze_order_cases.
    destruct ((leverage =? 0) || (current_price o =? 0)); [reflexivity|].
    cbn [orb].
    destruct (rejected o || (potential_loss o capital leverage =? 0));
      cbn [bind]; rewrite IH; destruct (existsb raises orders);
      try reflexivity.
    now rewrite <- app_assoc.
Qed.

(** On a table that resolves, some order divides by zero exactly when the
    table is not empty and the leverage is zero, or some entry price is. *)
Lemma raises_iff_divides_by_zero (rows : list input_row) :
  existsb unresolvable_row rows = false ->
  existsb raises (orders_of rows) = divides_by_zero leverage rows.
Proof.
  unfold divides_by_zero.
  induction rows as [|row rows IH]; cbn [existsb orders_of flat_map is_empty].
  - intros _. now rewrite andb_false_r.
  - fold (orders_of rows). intros H. apply orb_false_iff in H.
    destruct H as [Hrow Hrows]. specialize (IH Hrows).
    unfold unresolvable_row in Hrow. unfold order_of_row.
    destruct (calc_price_from_input (o2 row) (o3 row)); [|discriminate].
    destruct (calc_price_from_input (o2 row) (o4 row)); [|discriminate].
    cbn [app existsb]. rewrite IH. unfold raises, zero_entry.
    cbn [current_price].
    destruct (leverage =? 0), (o2 row =? 0), (is_empty rows),
      (existsb (fun r => o2 r =? 0) rows); reflexivity.
Qed.

(** The driver in one equation. *)
Lemma analyze_trading_orders_cases (rows : list input_row) :
  analyze_trading_orders capital leverage rows =
    if existsb unresolvable_row rows then Raise ValueError
    else if divides_by_zero leverage rows then Raise ZeroDivisionError
    else
      match valid_results capital leverage (orders_of rows) with
      | [] => Return ([Print msg_no_valid_orders], None)
      | (_ :: _) as df =>
          Return ([SetFloatFormat; Print msg_results; Display df;
                   PlotHeatmap df], Some df)
      end.
Proof.
  unfold analyze_trading_orders. rewrite resolve_loop_cases.
  destruct (existsb unresolvable_row rows) eqn:U; [reflexivity|].
  cbn [bind app]. rewrite analyze_loop_cases, (raises_iff_divides_by_zero rows U).
  destruct (divides_by_zero leverage rows); [reflexivity|].
  cbn [bind app].
  destruct (valid_results capital leverage (orders_of rows)); reflexivity.
Qed.

(** X5.  Which error the driver raises.  It raises [ValueError] exactly when
    the resolver rejects a price of some row, whatever the leverage and the
    entry prices; it raises [ZeroDivisionError] exactly when every price
    resolves and either the table is not empty and the leverage is zero, or
    the entry price of some row is zero; in every other case it returns.
    One bad row therefore discards the results of all the others. *)
Theorem analyze_trading_orders_errors (rows : list input_row) :
  (analyze_trading_orders capital leverage rows = Raise ValueError <->
   existsb unresolvable_row rows = true) /\
  (analyze_trading_orders capital leverage rows = Raise ZeroDivisionError <->
   existsb unresolvable_row rows = false /\
   divides_by_zero leverage rows = true) /\
  ((exists out, analyze_trading_orders capital leverage rows = Return out) <->
   existsb unresolvable_row rows = false /\
   divides_by_zero leverage rows = false).
Proof.
  rewrite analyze_trading_orders_cases.
  destruct (existsb unresolvable_row rows);
    [|destruct (divides_by_zero leverage rows);
      [|destruct (valid_results capital leverage (orders_of rows))]];
    (split; [|split]); split;
    try (intros H; discriminate H);
    try (intros [H1 H2]; discriminate);
    try (intros [out H]; discriminate H);
    try (intros _; reflexivity);
    try (intros _; split; reflexivity);
    try (intros _; eexists; reflexivity).
Qed.

(** What the orders emit is, row for row, a selection of the table. *)
Lemma valid_results_subseq (rows : list input_row) :
  subseq (map result_key (valid_results capital leverage (orders_of rows)))
         (map row_key rows).
Proof.
  induction rows as [|row rows IH];
    cbn [orders_of flat_map valid_results map]; [constructor|].
  fold (orders_of rows). unfold valid_results. rewrite flat_map_app.
  fold (valid_results capital leverage (orders_of rows)).
  unfold order_of_row.
  destruct (calc_price_from_input (o2 row) (o3 row)) as [tp|];
    [|now apply subseq_skip].
  destruct (calc_price_from_input (o2 row) (o4 row)) as [sl|];
    [|now apply subseq_skip].
  cbn [flat_map app]. unfold emitted at 1. rewrite analyze_order_cases.
  destruct ((leverage =? 0) || _); [now apply subseq_skip|].
  destruct (rejected _ || _); [now apply subseq_skip|].
  cbn [app map]. now apply subseq_keep.
Qed.

Lemma subseq_length {A : Type} (l1 l2 : list A) :
  subseq l1 l2 -> (List.length l1 <= List.length l2)%nat.
Proof. induction 1; cbn; lia. Qed.

(** Every emitted result echoes the capital and the leverage of the call. *)
Lemma valid_results_fields (orders : list order) :
  Forall (fun r => r_capital r = capital /\ r_leverage r = leverage /\
                   r_position_value r = capital * leverage /\
                   (r_potential_loss r =? 0) = false)
         (valid_results capital leverage orders).
Proof.
  induction orders as [|o orders IH]; cbn [valid_results flat_map];
    [constructor|].
  fold (valid_results capital leverage orders).
  unfold emitted.
  destruct (analyze_order o capital leverage) as [[r|]|e] eqn:E;
    cbn [app]; try assumption.
  constructor; [|assumption].
  apply analyze_order_emits in E. destruct E as (_ & _ & _ & Hloss & ->).
  cbn. auto.
Qed.

(** X6.  What the driver returns.  A returned table is never empty and has
    at most one row per input row; its rows follow the input order (their
    direction, win rate and entry price are those of a selection of the input
    rows), each carries the capital and the leverage of the call, a position
    value of [capital * leverage] and a potential loss other than zero; the
    table handed to the display and to the plot is the one returned.  When
    the driver returns [None] it has printed the no-valid-orders message and
    nothing else. *)
Theorem analyze_trading_orders_returns
    (rows : list input_row) (effects : list effect)
    (table : option (list analysis)) :
  analyze_trading_orders capital leverage rows = Return (effects, table) ->
  match table with
  | Some df =>
      df <> [] /\
      (List.length df <= List.length rows)%nat /\
      subseq (map result_key df) (map row_key rows) /\
      Forall (fun r => r_capital r = capital /\ r_leverage r = leverage /\
                       r_position_value r = capital * leverage /\
                       (r_potential_loss r =? 0) = false) df /\
      effects = [SetFloatFormat; Print msg_results; Display df; PlotHeatmap df]
  | None => effects = [Print msg_no_valid_orders]
  end.
Proof.
  rewrite analyze_trading_orders_cases.
  destruct (existsb unresolvable_row rows); [discriminate|].
  destruct (divides_by_zero leverage rows); [discriminate|].
  pose proof (valid_results_subseq rows) as Hsub.
  pose proof (valid_results_fields (orders_of rows)) as Hfields.
  destruct (valid_results capital leverage (orders_of rows)) as [|r df] eqn:E;
    intros [= <- <-]; [reflexivity|].
  refine (conj _ (conj _ (conj Hsub (conj Hfields eq_refl)))).
  - discriminate.
  - apply subseq_length in Hsub. now rewrite !length_map in Hsub.
Qed.

End DriverCases.

Section DriverCasesExamples.

(** [analyze_trading_orders_returns] at the two valid rows of the script
    around one that fails validation. *)
Lemma analyze_trading_orders_returns_witness :
  exists df : list analysis,
    analyze_trading_orders 100 20 [row_long_3pct; row_inverted; row_short] =
      Return ([SetFloatFormat; Print msg_results; Display df; PlotHeatmap df],
              Some df) /\
    df <> [] /\
    subseq (map result_key df)
           (map row_key [row_long_3pct; row_inverted; row_short]).
Proof.
  exists (valid_results 100 20
            (orders_of [row_long_3pct; row_inverted; row_short])).
  assert (H : analyze_trading_orders 100 20
                [row_long_3pct; row_inverted; row_short] =
              Return
                (let df := valid_results 100 20
                             (orders_of [row_long_3pct; row_inverted; row_short])
                 in
                 ([SetFloatFormat; Print msg_results; Display df;
                   PlotHeatmap df], Some df)))
    by by_evaluation.
  split; [exact H|].
  destruct (analyze_trading_orders_returns 100 20 _ _ _ H)
    as (Hne & _ & Hsub & _).
  split; assumption.
Defined.

End DriverCasesExamples.

(* ================================================================== *)
(** ** The traces of the figure *)

Section PlotHeatmapSpec.

Variable linspace : float -> float -> nat -> list float.
Variable clip : float -> float -> float -> float.
Variables format_2f format_2pct format_plain : float -> string.

Let marker := marker_of format_2f format_2pct format_plain.
Let markers := add_markers format_2f format_2pct format_plain.
Let plot := plot_heatmap linspace clip format_2f format_2pct format_plain.

(** The loop appends one marker per row and leaves the earlier traces
    alone. *)
Lemma add_markers_length (rows : list analysis) :
  forall idx fig,
    List.length (markers rows idx fig) =
      (List.length fig + List.length rows)%nat.
Proof.
  induction rows as [|row rows IH]; intros idx fig; cbn.
  - lia.
  - unfold markers in IH. rewrite IH, length_app. cbn. lia.
Qed.

Lemma add_markers_before (rows : list analysis) :
  forall idx fig n,
    (n < List.length fig)%nat ->
    nth_error (markers rows idx fig) n = nth_error fig n.
Proof.
  induction rows as [|row rows IH]; intros idx fig n Hn; cbn;
    [reflexivity|].
  unfold markers in IH. rewrite IH by (rewrite length_app; cbn; lia).
  now apply nth_error_app1.
Qed.

Lemma add_markers_nth (rows : list analysis) :
  forall idx fig k row,
    nth_error rows k = Some row ->
    nth_error (markers rows idx fig) (List.length fig + k) =
      Some (marker (idx + k)%nat row).
Proof.
  induction rows as [|r rows IH]; intros idx fig k row Hk.
  - destruct k; discriminate Hk.
  - change (markers (r :: rows) idx fig)
      with (markers rows (S idx) (fig ++ [marker idx r])).
    destruct k as [|k]; cbn [nth_error] in Hk.
    + injection Hk as ->. rewrite !Nat.add_0_r.
      rewrite add_markers_before by (rewrite length_app; cbn; lia).
      rewrite nth_error_app2 by lia. now rewrite Nat.sub_diag.
    + specialize (IH (S idx) (fig ++ [marker idx r]) k row Hk).
      rewrite length_app in IH. cbn [List.length] in IH.
      replace (List.length fig + S k)%nat
        with (List.length fig + 1 + k)%nat by lia.
      rewrite IH. f_equal. f_equal. lia.
Qed.

(** X7.  The figure holds the contour first, the break-even line second,
    then exactly one marker per row of the table, in the order of the table:
    the marker of the k-th row (counted from 0) is labelled k + 1, lies at
    the row's win rate in percent and at its profit/loss ratio, and is green
    exactly when the row's direction is the long label, red otherwise. *)
Theorem plot_heatmap_traces (df : list analysis) :
  List.length (plot df) = (2 + List.length df)%nat /\
  (exists z x y, nth_error (plot df) 0 = Some (Contour z x y)) /\
  (exists x y, nth_error (plot df) 1 = Some (Lines x y breakeven_name)) /\
  (forall k row,
      nth_error df k = Some row ->
      exists t,
        nth_error (plot df) (2 + k) = Some t /\
        marker_view t =
          Some (r_win_rate row * 100, r_profit_loss_ratio row,
                string_of_nat (k + 1),
                if (r_direction row =? long_label)%string
                then "green"%string else "red"%string)).
Proof.
  unfold plot, plot_heatmap.
  set (fig := [Contour _ _ _] ++ [Lines _ _ _]).
  change (add_markers format_2f format_2pct format_plain df 0 fig)
    with (markers df 0 fig).
  refine (conj _ (conj _ (conj _ _))).
  - rewrite add_markers_length. reflexivity.
  - rewrite add_markers_before by (cbn; lia). cbn. eauto.
  - rewrite add_markers_before by (cbn; lia). cbn. eauto.
  - intros k row Hk. exists (marker k row). split; [|reflexivity].
    exact (add_markers_nth df 0 fig k row Hk).
Qed.

(** X8.  The marker of a result the evaluator emits is green exactly when
    the long branch evaluated the order: an order with any other label, a
    recognised one or not, was evaluated as a short and is drawn red.  The
    marker lies at the order's win rate in percent, at a height that is never
    negative. *)
Theorem marker_matches_evaluation
    (o : order) (capital leverage : float) (r : analysis) (idx : nat) :
  analyze_order o capital leverage = Return (Some r) ->
  marker_view (marker idx r) =
    Some (win_rate o * 100, r_profit_loss_ratio r, string_of_nat (idx + 1),
          if is_long o then "green"%string else "red"%string) /\
  (r_profit_loss_ratio r <? 0) = false.
Proof.
  intros H. apply analyze_order_emits in H.
  destruct H as (_ & _ & _ & _ & ->).
  split; [reflexivity|]. apply abs_not_negative.
Qed.

End PlotHeatmapSpec.

Section PlotHeatmapExamples.

(** [marker_matches_evaluation] at an order labelled with an English word,
    with formatting functions that print nothing. *)
Lemma marker_matches_evaluation_witness :
  marker_view
    (marker_of (fun _ => EmptyString) (fun _ => EmptyString)
       (fun _ => EmptyString) 0
       (result_of (with_direction "short" example_short) 100 20)) =
  Some (0.5 * 100,
        r_profit_loss_ratio
          (result_of (with_direction "short" example_short) 100 20),
        "1"%string, "red"%string).
Proof.
  apply (marker_matches_evaluation
           (fun _ => EmptyString) (fun _ => EmptyString) (fun _ => EmptyString)
           (with_direction "short" example_short) 100 20
           (result_of (with_direction "short" example_short) 100 20) 0).
  by_evaluation.
Defined.

End PlotHeatmapExamples.

(* ================================================================== *)
(** ** What the evaluator does not check, and how tables compose *)

Section Independence.

Variables capital leverage : float.

(** X9.  The evaluator never validates the win rate: whether an order is
    rejected, accepted or makes the evaluator raise does not depend on it,
    and in an emitted result it determines the win-rate field and the
    expected value only.  Any float is taken, also one outside [0, 1] or a
    NaN. *)
Theorem win_rate_is_not_validated (o : order) (w : float) :
  analyze_order (with_win_rate w o) capital leverage =
    map_outcome (option_map (reweigh w)) (analyze_order o capital leverage).
Proof.
  rewrite !analyze_order_cases.
  change (current_price (with_win_rate w o)) with (current_price o).
  change (rejected (with_win_rate w o)) with (rejected o).
  change (potential_loss (with_win_rate w o) capital leverage)
    with (potential_loss o capital leverage).
  destruct ((leverage =? 0) || (current_price o =? 0)); [reflexivity|].
  destruct (rejected o || (potential_loss o capital leverage =? 0));
    reflexivity.
Qed.

(** The emitted results of a concatenated table. *)
Lemma valid_results_app (rows1 rows2 : list input_row) :
  valid_results capital leverage (orders_of (rows1 ++ rows2)) =
    valid_results capital leverage (orders_of rows1)
    ++ valid_results capital leverage (orders_of rows2).
Proof.
  unfold valid_results, orders_of. now rewrite !flat_map_app.
Qed.

Lemma divides_by_zero_app (rows1 rows2 : list input_row) :
  divides_by_zero leverage (rows1 ++ rows2) =
    divides_by_zero leverage rows1 || divides_by_zero leverage rows2.
Proof.
  unfold divides_by_zero. rewrite existsb_app.
  destruct rows1 as [|r1 rows1], rows2 as [|r2 rows2]; cbn [app is_empty];
    rewrite ?app_nil_r;
    destruct (leverage =? 0); cbn [andb negb orb];
    rewrite ?orb_false_r; try reflexivity;
    repeat match goal with
           | |- context [existsb ?f ?l] => destruct (existsb f l)
           end; reflexivity.
Qed.

(** The rows of a returned outcome are the emitted results. *)
Lemma returned_rows (rows : list input_row)
    (out : list effect * option (list analysis)) :
  analyze_trading_orders capital leverage rows = Return out ->
  existsb unresolvable_row rows = false /\
  divides_by_zero leverage rows = false /\
  table_rows out = valid_results capital leverage (orders_of rows).
Proof.
  rewrite analyze_trading_orders_cases.
  destruct (existsb unresolvable_row rows); [discriminate|].
  destruct (divides_by_zero leverage rows); [discriminate|].
  destruct (valid_results capital leverage (orders_of rows));
    intros [= <-]; auto.
Qed.

(** X10.  Rows are analysed independently of one another: when the driver
    returns for two tables it returns for their concatenation, and the rows
    it returns are the rows returned for the first table followed by those
    returned for the second. *)
Theorem tables_concatenate
    (rows1 rows2 : list input_row)
    (out1 out2 : list effect * option (list analysis)) :
  analyze_trading_orders capital leverage rows1 = Return out1 ->
  analyze_trading_orders capital leverage rows2 = Return out2 ->
  exists out,
    analyze_trading_orders capital leverage (rows1 ++ rows2) = Return out /\
    table_rows out = table_rows out1 ++ table_rows out2.
Proof.
  intros H1 H2.
  apply returned_rows in H1. destruct H1 as (U1 & D1 & ->).
  apply returned_rows in H2. destruct H2 as (U2 & D2 & ->).
  rewrite analyze_trading_orders_cases.
  rewrite existsb_app, U1, U2, divides_by_zero_app, D1, D2. cbn [orb].
  rewrite valid_results_app.
  destruct (valid_results capital leverage (orders_of rows1)
            ++ valid_results capital leverage (orders_of rows2)) eqn:E;
    eexists; split; reflexivity || (cbn; now rewrite E).
Qed.

End Independence.

Section IndependenceExamples.

(** [tables_concatenate] at the script's rows, split after the first. *)
Lemma tables_concatenate_witness :
  exists out,
    analyze_trading_orders 100 20 ([row_long_3pct] ++ [row_inverted; row_short])
      = Return out /\
    table_rows out =
      valid_results 100 20 (orders_of [row_long_3pct])
      ++ valid_results 100 20 (orders_of [row_inverted; row_short]).
Proof.
  destruct (tables_concatenate 100 20 [row_long_3pct] [row_inverted; row_short]
              (let df := valid_results 100 20 (orders_of [row_long_3pct]) in
               ([SetFloatFormat; Print msg_results; Display df; PlotHeatmap df],
                Some df))
              (let df := valid_results 100 20
                           (orders_of [row_inverted; row_short]) in
               ([SetFloatFormat; Print msg_results; Display df; PlotHeatmap df],
                Some df)))
    as (out & Hout & Hrows); [by_evaluation | by_evaluation |].
  exists out. split; [exact Hout|]. exact Hrows.
Defined.

End IndependenceExamples.
